(** * The query cache of the client protocol (rdb_protocol/query_cache.cc)

    A shallow embedding of [ql::query_cache_t], its entries and its access
    handles ([ref_t]), and the properties of its token-keyed state machine.

    The cache runs on one worker with cooperative scheduling.  Code of the
    cache itself is sequential; other coroutines get to run only while the
    current one is suspended inside a call into the evaluator.  Such a call
    is therefore modelled as returning, next to its result or exception, the
    list of things other agents did to the entry in the meantime. *)

From stdpp Require Import gmap strings list pretty.

Open Scope Z_scope.
Open Scope string_scope.
Open Scope list_scope.

(** ** Enumerations *)

(** [entry_t::state_t] *)
Module state_t.
Inductive t := START | STREAM | DONE | DELETING.
#[global] Instance eq_dec : EqDecision t.
Proof. solve_decision. Defined.
End state_t.

(** Modelled from the spec: response.hpp is not part of the sources; the
    response kinds and notes are those of the response record in the
    external interfaces section. *)
Module Response.
Inductive ResponseType :=
  | SUCCESS_ATOM | SUCCESS_SEQUENCE | SUCCESS_PARTIAL
  | CLIENT_ERROR | COMPILE_ERROR | RUNTIME_ERROR.
Inductive ResponseNote :=
  | SEQUENCE_FEED | ATOM_FEED | ORDER_BY_LIMIT_FEED | UNIONED_FEED
  | OTHER_NOTE (n : N).
#[global] Instance type_eq_dec : EqDecision ResponseType.
Proof. solve_decision. Defined.
End Response.
Import Response.

(** The two batch kinds [serve] chooses between. *)
Module batch_type_t.
Inductive t := NORMAL | NORMAL_FIRST.
End batch_type_t.

Module feed_type_t.
Inductive t := not_feed | stream | point | orderby_limit | unioned.
End feed_type_t.

(** ** Exceptions *)

(** What the evaluator and the compiler can throw.  [exc_t] carries the id of
    the backtrace frame it was raised at; [datum_exc_t] and every other
    [std::exception] carry only a message. *)
Inductive eval_exc :=
  | interrupted_exc_t
  | exc_t (what : string) (bt : N)
  | datum_exc_t (what : string)
  | std_exception (what : string).

(** [rfail_toplevel]: an evaluator exception raised at the head of the
    backtrace. *)
Definition rfail_toplevel (msg : string) : eval_exc := exc_t msg 0%N.

(** Outcome of a call: normal return, a C++ exception, or a failed
    [guarantee] (the process aborts). *)
Inductive outcome (E A : Type) :=
  | Normal (a : A)
  | Throw (x : E)
  | Abort.
Arguments Normal {E A} a.
Arguments Throw {E A} x.
Arguments Abort {E A}.

(** ** Suspension points *)

(** What another coroutine can do to an entry while its holder is suspended:
    [terminate_internal] (reached from [terminate_query] on a client STOP), or
    a bare pulse of the persistent interruptor.

    Modelled from the spec: the admin jobs table is not part of the sources;
    the bare pulse is the spec's admin kill, which "pulses
    persistent_interruptor without first marking DONE". *)
Inductive agent_action :=
  | act_terminate_internal
  | act_pulse_persistent.

Record suspension (A : Type) := Suspension {
  concurrent : list agent_action;
  result : eval_exc + A
}.
Arguments Suspension {A} _ _.
Arguments concurrent {A} _.
Arguments result {A} _.

(** A call that returns [a] without anybody interfering. *)
Definition returns {A} (a : A) : suspension A := Suspension [] (inr a).

(** ** External collaborators

    The evaluator, the compiler, the streams and the backtrace registry are
    outside the query cache; the cache sees them through this interface. *)
Class Collaborators := {
  datum_t : Type;
  json_t : Type;
  term_storage_t : Type;
  global_optargs_t : Type;
  backtrace_registry_t : Type;
  term_t : Type;
  val_t : Type;
  grouped_data_t : Type;
  datum_stream_t : Type;

  (** [backtrace_registry_t::EMPTY_BACKTRACE] and [bt_reg.datum_backtrace(e)] *)
  EMPTY_BACKTRACE : datum_t;
  datum_backtrace : backtrace_registry_t -> eval_exc -> datum_t;
  empty_bt_reg : backtrace_registry_t;

  (** compilation, used by [create] *)
  make_term_storage : json_t -> eval_exc + term_storage_t;
  make_global_optargs : json_t -> eval_exc + global_optargs_t;
  preprocess_term_tree :
    term_storage_t -> backtrace_registry_t -> backtrace_registry_t * (eval_exc + unit);
  compile_term : term_storage_t -> eval_exc + term_t;

  (** evaluation, used by [run] *)
  eval : term_t -> suspension val_t;
  is_convertible_DATUM : val_t -> bool;
  is_convertible_SEQUENCE : val_t -> bool;
  type_name : val_t -> string;
  as_datum : val_t -> suspension datum_t;
  maybe_as_promiscuous_grouped_data : val_t -> suspension (option grouped_data_t);
  to_datum_for_client_serialization : grouped_data_t -> suspension datum_t;
  as_seq : val_t -> suspension datum_stream_t;
  as_array : datum_stream_t -> suspension (option datum_t);

  (** streams, used by [serve]; [next_batch] advances the stream *)
  next_batch :
    datum_stream_t -> batch_type_t.t -> suspension (list datum_t * datum_stream_t);
  is_exhausted : datum_stream_t -> bool;
  cfeed_type : datum_stream_t -> feed_type_t.t;
  stream_notes : datum_stream_t -> list ResponseNote;

  (** [trace->as_datum()] *)
  trace_as_datum : datum_t
}.

(** What crosses the boundary of the query cache: a [bt_exc_t], or an
    exception no handler of the cache catches. *)
Inductive exception `{Collaborators} :=
  | uncaught (x : eval_exc)
  | bt_exc_t (response_type : ResponseType) (message : string) (bt_datum : datum_t).

Section EntryAndRef.
Context `{Collaborators}.

(** ** Data model *)

(** [query_cache_t::entry_t].  The mutex and the drainer order the holders of
    an entry and do not appear; [persistent_interruptor] is the pulsed flag of
    the signal. *)
Record entry_t := Entry {
  state : state_t.t;
  job_id : N;
  noreply : bool;
  profile : bool;
  bt_reg : backtrace_registry_t;
  term_storage : term_storage_t;
  global_optargs : global_optargs_t;
  start_time : N;
  root_term : option term_t;
  stream : option datum_stream_t;
  has_sent_batch : bool;
  persistent_interruptor : bool
}.

Definition with_state (s : state_t.t) (e : entry_t) : entry_t :=
  Entry s (job_id e) (noreply e) (profile e) (bt_reg e) (term_storage e)
        (global_optargs e) (start_time e) (root_term e) (stream e)
        (has_sent_batch e) (persistent_interruptor e).
Definition with_root_term (t : option term_t) (e : entry_t) : entry_t :=
  Entry (state e) (job_id e) (noreply e) (profile e) (bt_reg e) (term_storage e)
        (global_optargs e) (start_time e) t (stream e)
        (has_sent_batch e) (persistent_interruptor e).
Definition with_stream (s : option datum_stream_t) (e : entry_t) : entry_t :=
  Entry (state e) (job_id e) (noreply e) (profile e) (bt_reg e) (term_storage e)
        (global_optargs e) (start_time e) (root_term e) s
        (has_sent_batch e) (persistent_interruptor e).
Definition with_has_sent_batch (b : bool) (e : entry_t) : entry_t :=
  Entry (state e) (job_id e) (noreply e) (profile e) (bt_reg e) (term_storage e)
        (global_optargs e) (start_time e) (root_term e) (stream e)
        b (persistent_interruptor e).
Definition with_persistent_interruptor (b : bool) (e : entry_t) : entry_t :=
  Entry (state e) (job_id e) (noreply e) (profile e) (bt_reg e) (term_storage e)
        (global_optargs e) (start_time e) (root_term e) (stream e)
        (has_sent_batch e) b.

(** Modelled from the spec: response.hpp is not part of the sources.  A
    response has a type (unset until [set_type]), a vector of data (an atom is
    a vector of one datum), notes and an optional profile; [clear] empties
    all of them. *)
Record response_t := Response {
  type : option ResponseType;
  data : list datum_t;
  notes : list ResponseNote;
  profile_datum : option datum_t
}.

Definition empty_response : response_t := Response None [] [] None.

(** ** The monad of a handle's operations

    An operation of a [ref_t] mutates the entry it points to and the response
    it is given, and ends normally, by an exception or by a failed guarantee.
    Mutations made before an exception stay. *)
Definition M (E A : Type) : Type :=
  entry_t * response_t -> (entry_t * response_t) * outcome E A.

Definition ret {E A} (a : A) : M E A := fun s => (s, Normal a).
Definition bind {E A B} (m : M E A) (k : A -> M E B) : M E B :=
  fun s =>
    match m s with
    | (s', Normal a) => k a s'
    | (s', Throw x) => (s', Throw x)
    | (s', Abort) => (s', Abort)
    end.
Definition throw {E A} (x : E) : M E A := fun s => (s, Throw x).
Definition abort {E A} : M E A := fun s => (s, Abort).
Definition guarantee {E} (b : bool) : M E unit := if b then ret tt else abort.
Definition try_catch {E E' A} (m : M E A) (h : E -> M E' A) : M E' A :=
  fun s =>
    match m s with
    | (s', Normal a) => (s', Normal a)
    | (s', Throw x) => h x s'
    | (s', Abort) => (s', Abort)
    end.

Definition get_entry {E} : M E entry_t := fun s => (s, Normal (fst s)).
Definition get_res {E} : M E response_t := fun s => (s, Normal (snd s)).
Definition modify_entry {E} (f : entry_t -> entry_t) : M E unit :=
  fun s => ((f (fst s), snd s), Normal tt).
Definition modify_res {E} (f : response_t -> response_t) : M E unit :=
  fun s => ((fst s, f (snd s)), Normal tt).

End EntryAndRef.

Declare Scope qc_scope.
Delimit Scope qc_scope with qc.
Notation "'let*' x ':=' m 'in' k" := (bind m (fun x => k))
  (at level 10, x pattern, m at level 100, k at level 200) : qc_scope.
Notation "m1 >> m2" := (bind m1 (fun _ => m2))
  (at level 100, right associativity) : qc_scope.

Section RefOperations.
Context `{Collaborators}.
Local Open Scope qc_scope.

(** ** [query_cache_t::terminate_internal] *)
Definition terminate_internal (e : entry_t) : entry_t :=
  let e1 :=
    if decide (state e = state_t.START \/ state e = state_t.STREAM)
    then with_state state_t.DONE e
    else e in
  with_persistent_interruptor true e1.

Definition apply_action (e : entry_t) (a : agent_action) : entry_t :=
  match a with
  | act_terminate_internal => terminate_internal e
  | act_pulse_persistent => with_persistent_interruptor true e
  end.

Definition apply_actions (acts : list agent_action) (e : entry_t) : entry_t :=
  fold_left apply_action acts e.

(** A call into the evaluator: the other agents act on the entry while the
    caller is suspended, then the call returns or throws. *)
Definition call {A} (c : suspension A) : M eval_exc A :=
  fun s =>
    let s' := (apply_actions (concurrent c) (fst s), snd s) in
    match result c with
    | inr a => (s', Normal a)
    | inl x => (s', Throw x)
    end.

(** Setters of [response_t]. *)
Definition set_type (t : ResponseType) (r : response_t) : response_t :=
  Response (Some t) (data r) (notes r) (profile_datum r).
Definition set_data (ds : list datum_t) (r : response_t) : response_t :=
  Response (type r) ds (notes r) (profile_datum r).
Definition add_note (n : ResponseNote) (r : response_t) : response_t :=
  Response (type r) (data r) (notes r ++ [n]) (profile_datum r).
Definition add_notes (ns : list ResponseNote) (r : response_t) : response_t :=
  Response (type r) (data r) (notes r ++ ns) (profile_datum r).
Definition set_profile (d : datum_t) (r : response_t) : response_t :=
  Response (type r) (data r) (notes r) (Some d).
Definition clear (r : response_t) : response_t := empty_response.

Definition result_type_message (name : string) : string :=
  "Query result must be of type DATUM, GROUPED_DATA, or STREAM (got " +:+ name +:+ ").".

(** ** [query_cache_t::ref_t::run] *)
Definition run : M eval_exc unit :=
  (* The state will be overwritten if we end up with a stream *)
  modify_entry (with_state state_t.DONE) >>
  let* e := get_entry in
  match root_term e with
  | None => abort
  | Some root =>
    let* val := call (eval root) in
    if is_convertible_DATUM val then
      modify_res (set_type SUCCESS_ATOM) >>
      let* d := call (as_datum val) in
      modify_res (set_data [d])
    else
      let* gd := call (maybe_as_promiscuous_grouped_data val) in
      match gd with
      | Some g =>
        let* d := call (to_datum_for_client_serialization g) in
        modify_res (set_type SUCCESS_ATOM) >>
        modify_res (set_data [d])
      | None =>
        if is_convertible_SEQUENCE val then
          let* seq := call (as_seq val) in
          let* arr := call (as_array seq) in
          match arr with
          | Some a =>
            modify_res (set_type SUCCESS_ATOM) >>
            modify_res (set_data [a])
          | None =>
            modify_entry (with_stream (Some seq)) >>
            modify_entry (with_has_sent_batch false) >>
            modify_entry (with_state state_t.STREAM)
          end
        else
          throw (rfail_toplevel (result_type_message (type_name val)))
      end
  end.

(** The batch kind [serve] asks for. *)
Definition batch_type_of (e : entry_t) : batch_type_t.t :=
  if has_sent_batch e then batch_type_t.NORMAL else batch_type_t.NORMAL_FIRST.

(** ** [query_cache_t::ref_t::serve] *)
Definition serve : M eval_exc unit :=
  let* e := get_entry in
  match stream e with
  | None => abort
  | Some s =>
    let batch_type := batch_type_of e in
    let* (ds, s') := call (next_batch s batch_type) in
    modify_entry (with_stream (Some s')) >>
    modify_entry (with_has_sent_batch true) >>
    modify_res (set_data ds) >>
    (* Note that SUCCESS_SEQUENCE is possible for feeds if you call .limit
       after the feed. *)
    let* e := get_entry in
    (if is_exhausted s' || noreply e then
       guarantee (bool_decide (state e = state_t.STREAM)) >>
       modify_entry (with_state state_t.DONE) >>
       modify_res (set_type SUCCESS_SEQUENCE)
     else
       modify_res (set_type SUCCESS_PARTIAL)) >>
    let* r := get_res in
    (match cfeed_type s' with
     | feed_type_t.not_feed =>
       (* a 0-size response of a stream that is no feed means there is no
          more data *)
       if (length (data r) =? 0)%nat
       then modify_res (set_type SUCCESS_SEQUENCE)
       else ret tt
     | feed_type_t.stream => modify_res (add_note SEQUENCE_FEED)
     | feed_type_t.point => modify_res (add_note ATOM_FEED)
     | feed_type_t.orderby_limit => modify_res (add_note ORDER_BY_LIMIT_FEED)
     | feed_type_t.unioned => modify_res (add_note UNIONED_FEED)
     end) >>
    modify_res (add_notes (stream_notes s'))
  end.

Definition duplicate_token_message (token : Z) : string :=
  "ERROR: duplicate token " +:+ pretty token.
Definition not_in_cache_message (token : Z) : string :=
  "Token " +:+ pretty token +:+ " not in stream cache.".
Definition jobs_message : string :=
  "Query terminated by the `rethinkdb.jobs` table.".

(** The [try] block of [fill_response]; [traced] is [trace.has()]. *)
Definition fill_body (traced : bool) : M eval_exc unit :=
  (let* e := get_entry in
   if decide (state e = state_t.START) then
     run >> modify_entry (with_root_term None)
   else ret tt) >>
  (let* e := get_entry in
   if decide (state e = state_t.STREAM) then serve else ret tt) >>
  (if traced then modify_res (set_profile trace_as_datum) else ret tt).

(** The [catch] clauses of [fill_response]. *)
Definition fill_handler (ex : eval_exc) : M exception unit :=
  match ex with
  | interrupted_exc_t =>
    let* e := get_entry in
    if persistent_interruptor e then
      if decide (state e <> state_t.DONE) then
        throw (bt_exc_t RUNTIME_ERROR jobs_message EMPTY_BACKTRACE)
      else
        (* For compatibility, we return a SUCCESS_SEQUENCE in this case *)
        modify_res clear >>
        modify_res (set_type SUCCESS_SEQUENCE)
    else
      modify_entry terminate_internal >>
      throw (uncaught interrupted_exc_t)
  | exc_t what _ =>
    modify_entry terminate_internal >>
    let* e := get_entry in
    throw (bt_exc_t RUNTIME_ERROR what (datum_backtrace (bt_reg e) ex))
  | datum_exc_t what | std_exception what =>
    modify_entry terminate_internal >>
    throw (bt_exc_t RUNTIME_ERROR what EMPTY_BACKTRACE)
  end.

(** ** [query_cache_t::ref_t::fill_response] *)
Definition fill_response (token : Z) (traced : bool) : M exception unit :=
  let* e := get_entry in
  if decide (state e <> state_t.START /\ state e <> state_t.STREAM) then
    (* This should only happen if the client recycled a token before
       getting the response for the last use of the token.
       In this case, just pretend it's a duplicate token issue *)
    throw (bt_exc_t CLIENT_ERROR (duplicate_token_message token) EMPTY_BACKTRACE)
  else
    try_catch (fill_body traced) fill_handler.

End RefOperations.

(** ** Query parameters, handles and the cache *)

(** The query-params record delivered by the connection layer.
    [query_cache] is the back-pointer checked by every operation, [id] the
    value of the query id issued to the params on receipt. *)
Module query_params_t.
Record t `{Collaborators} := Make {
  query_cache : N;
  token : Z;
  id : N;
  noreply : bool;
  profile : bool;
  root_term_json : json_t;
  global_optargs_json : json_t
}.
Arguments Make {_} _ _ _ _ _ _ _.
End query_params_t.

(** [query_cache_t::ref_t]: a pointer to the entry, the token, and whether a
    profile trace was made. *)
Module ref_t.
Record t := Make {
  entry : positive;
  token : Z;
  trace : bool
}.
End ref_t.

Section CacheOperations.
Context `{Collaborators}.

(** [query_cache_t].  [queries] owns the entries through pointers into
    [heap]; a handle keeps its pointer when the map lets go of the entry.
    [spawned] are the coroutines [spawn_sometime] has scheduled and that have
    not run yet, each one [async_destroy_entry] of a pointer.
    [outstanding_query_ids] are the issued ids not yet released, oldest
    first. *)
Record query_cache_t := QueryCache {
  self : N;
  queries : gmap Z positive;
  heap : gmap positive entry_t;
  spawned : list positive;
  next_query_id : N;
  oldest_outstanding_query_id : N;
  outstanding_query_ids : list N
}.

(** [query_cache_t::query_cache_t] *)
Definition new_query_cache (this : N) : query_cache_t :=
  QueryCache this ∅ ∅ [] 0%N 0%N [].

Definition with_queries (q : gmap Z positive) (qc : query_cache_t) :=
  QueryCache (self qc) q (heap qc) (spawned qc) (next_query_id qc)
             (oldest_outstanding_query_id qc) (outstanding_query_ids qc).
Definition with_heap (h : gmap positive entry_t) (qc : query_cache_t) :=
  QueryCache (self qc) (queries qc) h (spawned qc) (next_query_id qc)
             (oldest_outstanding_query_id qc) (outstanding_query_ids qc).
Definition with_spawned (l : list positive) (qc : query_cache_t) :=
  QueryCache (self qc) (queries qc) (heap qc) l (next_query_id qc)
             (oldest_outstanding_query_id qc) (outstanding_query_ids qc).
Definition with_tracker (next oldest : N) (out : list N) (qc : query_cache_t) :=
  QueryCache (self qc) (queries qc) (heap qc) (spawned qc) next oldest out.

(** *** The query-id tracker *)

(** Modelled from the spec: the query-id type and the bookkeeping of its
    constructor and destructor are not part of the sources.  The oldest
    outstanding id is "the minimum issued ID that has not yet been released",
    and "equals next_query_id when no IDs are outstanding". *)
Definition oldest_of (next : N) (out : list N) : N :=
  match out with
  | [] => next
  | v :: vs => foldr N.min v vs
  end.

(** Modelled from the spec: the tracker "issues strictly increasing u64 IDs to
    incoming query-params objects"; the counter is taken never to wrap. *)
Definition issue_query_id (qc : query_cache_t) : N * query_cache_t :=
  let v := next_query_id qc in
  let out := outstanding_query_ids qc ++ [v] in
  let next := (v + 1)%N in
  (v, with_tracker next (oldest_of next out) out qc).

(** Modelled from the spec: releasing an id takes it out of the outstanding
    ids; an id that is not outstanding any more is left alone. *)
Definition release_query_id (v : N) (qc : query_cache_t) : query_cache_t :=
  if decide (v ∈ outstanding_query_ids qc) then
    let out := filter (λ w, w ≠ v) (outstanding_query_ids qc) in
    with_tracker (next_query_id qc) (oldest_of (next_query_id qc) out) out qc
  else qc.

(** Modelled from the spec: [query_params_t::maybe_release_query_id] is not
    part of the sources.  The operations that call it release "the
    query-params ID back to the tracker"; a noreply query keeps its id until
    it has finished (in the end-to-end scenarios a NOREPLY_WAIT "blocks until
    the START fully finishes and releases" the id of a noreply START), so for
    noreply params nothing is released here. *)
Definition maybe_release_query_id (p : query_params_t.t) (qc : query_cache_t)
  : query_cache_t :=
  if query_params_t.noreply p then qc
  else release_query_id (query_params_t.id p) qc.

(** *** Construction of entries and handles *)

(** [entry_t::entry_t]; the job id and the start time come from
    [generate_uuid] and [current_microtime]. *)
Definition new_entry (p : query_params_t.t) (reg : backtrace_registry_t)
    (ts : term_storage_t) (go : global_optargs_t) (root : term_t)
    (uuid now : N) : entry_t :=
  Entry state_t.START uuid (query_params_t.noreply p) (query_params_t.profile p)
        reg ts go now (Some root) None false false.

(** [ref_t::ref_t].  The constructor reads the profile flag of the entry and
    waits for its mutex; [interrupted] says whether the external interruptor
    fires before the mutex is acquired, in which case [wait_interruptible]
    throws and no handle exists. *)
Definition new_ref (e : entry_t) (tok : Z) (ptr : positive) (interrupted : bool)
  : outcome exception ref_t.t :=
  if interrupted then Throw (uncaught interrupted_exc_t)
  else Normal (ref_t.Make ptr tok (profile e)).

(** The [try] block of [create] with the registry it leaves behind. *)
Definition compile_query (p : query_params_t.t)
  : backtrace_registry_t * (eval_exc + (term_storage_t * global_optargs_t * term_t)) :=
  match make_term_storage (query_params_t.root_term_json p) with
  | inl x => (empty_bt_reg, inl x)
  | inr ts =>
    match make_global_optargs (query_params_t.global_optargs_json p) with
    | inl x => (empty_bt_reg, inl x)
    | inr go =>
      match preprocess_term_tree ts empty_bt_reg with
      | (reg, inl x) => (reg, inl x)
      | (reg, inr _) =>
        match compile_term ts with
        | inl x => (reg, inl x)
        | inr root => (reg, inr (ts, go, root))
        end
      end
    end
  end.

(** *** [query_cache_t::create] *)
Definition create (qc : query_cache_t) (p : query_params_t.t)
    (uuid now : N) (interrupted : bool)
  : query_cache_t * outcome exception ref_t.t :=
  if negb (self qc =? query_params_t.query_cache p)%N then (qc, Abort) else
  let qc := maybe_release_query_id p qc in
  let tok := query_params_t.token p in
  if decide (is_Some (queries qc !! tok)) then
    (qc, Throw (bt_exc_t CLIENT_ERROR (duplicate_token_message tok) EMPTY_BACKTRACE))
  else
    match compile_query p with
    | (reg, inl (exc_t what bt)) =>
      (qc, Throw (bt_exc_t COMPILE_ERROR what (datum_backtrace reg (exc_t what bt))))
    | (_, inl (datum_exc_t what)) =>
      (qc, Throw (bt_exc_t COMPILE_ERROR what EMPTY_BACKTRACE))
    | (_, inl x) => (qc, Throw (uncaught x))
    | (reg, inr (ts, go, root)) =>
      let e := new_entry p reg ts go root uuid now in
      let ptr := fresh (dom (heap qc)) in
      match new_ref e tok ptr interrupted with
      | Normal r =>
        match queries qc !! tok with
        | Some _ => (qc, Abort)
        | None =>
          (with_queries (<[tok := ptr]> (queries qc))
             (with_heap (<[ptr := e]> (heap qc)) qc), Normal r)
        end
      | Throw x => (qc, Throw x)
      | Abort => (qc, Abort)
      end
    end.

(** *** [query_cache_t::get] *)
Definition get (qc : query_cache_t) (p : query_params_t.t) (interrupted : bool)
  : query_cache_t * outcome exception ref_t.t :=
  if negb (self qc =? query_params_t.query_cache p)%N then (qc, Abort) else
  let qc := maybe_release_query_id p qc in
  let tok := query_params_t.token p in
  match queries qc !! tok with
  | None =>
    (qc, Throw (bt_exc_t CLIENT_ERROR (not_in_cache_message tok) EMPTY_BACKTRACE))
  | Some ptr =>
    match heap qc !! ptr with
    | None => (qc, Abort)
    | Some e => (qc, new_ref e tok ptr interrupted)
    end
  end.

(** *** [query_cache_t::noreply_wait] *)

(** What the other coroutines do to the tracker while [noreply_wait] is
    blocked, in the order they do it; [ev_interrupt] is the external
    interruptor firing. *)
Inductive tracker_event :=
  | ev_issue
  | ev_release (v : N)
  | ev_interrupt.

Inductive wait_result :=
  | Satisfied
  | Interrupted
  | Blocked.

(** Modelled from the spec: the watchable is not part of the sources;
    [run_until_satisfied] "blocks until" the predicate holds of the watched
    value, "honoring the external interruptor".  [Blocked] is a wait that the
    given events do not end. *)
Fixpoint run_until_satisfied (pred : N -> bool) (qc : query_cache_t)
    (evs : list tracker_event) : query_cache_t * wait_result :=
  if pred (oldest_outstanding_query_id qc) then (qc, Satisfied)
  else
    match evs with
    | [] => (qc, Blocked)
    | ev_interrupt :: _ => (qc, Interrupted)
    | ev_issue :: evs' => run_until_satisfied pred (snd (issue_query_id qc)) evs'
    | ev_release v :: evs' => run_until_satisfied pred (release_query_id v qc) evs'
    end.

(** The result is [None] while the wait is still blocked. *)
Definition noreply_wait (qc : query_cache_t) (p : query_params_t.t)
    (evs : list tracker_event)
  : query_cache_t * option (outcome exception unit) :=
  if negb (self qc =? query_params_t.query_cache p)%N then (qc, Some Abort) else
  let tok := query_params_t.token p in
  match queries qc !! tok with
  | Some _ =>
    (qc, Some (Throw (bt_exc_t CLIENT_ERROR (duplicate_token_message tok)
                               EMPTY_BACKTRACE)))
  | None =>
    match run_until_satisfied
            (λ oldest_id_value, (oldest_id_value =? query_params_t.id p)%N) qc evs with
    | (qc', Satisfied) => (qc', Some (Normal tt))
    | (qc', Interrupted) => (qc', Some (Throw (uncaught interrupted_exc_t)))
    | (qc', Blocked) => (qc', None)
    end
  end.

(** *** [query_cache_t::terminate_query] *)
Definition terminate_query (qc : query_cache_t) (p : query_params_t.t)
  : query_cache_t * outcome exception unit :=
  if negb (self qc =? query_params_t.query_cache p)%N then (qc, Abort) else
  match queries qc !! query_params_t.token p with
  | Some ptr => (with_heap (alter terminate_internal ptr (heap qc)) qc, Normal tt)
  | None => (qc, Normal tt)
  end.

(** *** [query_cache_t::async_destroy_entry], when the scheduler runs it *)
Definition async_destroy_entry (ptr : positive) (qc : query_cache_t) : query_cache_t :=
  with_heap (delete ptr (heap qc)) qc.

(** *** [query_cache_t::ref_t::~ref_t] *)
Definition ref_dtor (r : ref_t.t) (qc : query_cache_t)
  : query_cache_t * outcome exception unit :=
  match heap qc !! ref_t.entry r with
  | None => (qc, Abort)
  | Some e =>
    if decide (state e = state_t.START) then (qc, Abort)
    else if decide (state e = state_t.DONE) then
      (* We remove the entry from the cache so no new queries can acquire it *)
      let qc :=
        with_heap (<[ref_t.entry r := with_state state_t.DELETING e]> (heap qc)) qc in
      match queries qc !! ref_t.token r with
      | None => (qc, Abort)
      | Some ptr =>
        let qc := with_spawned (spawned qc ++ [ptr]) qc in
        (with_queries (delete (ref_t.token r) (queries qc)) qc, Normal tt)
      end
    else (qc, Normal tt)
  end.

(** [fill_response] of a handle, on the entry the handle points to. *)
Definition ref_fill_response (r : ref_t.t) (res : response_t) (qc : query_cache_t)
  : query_cache_t * response_t * outcome exception unit :=
  match heap qc !! ref_t.entry r with
  | None => (qc, res, Abort)
  | Some e =>
    match fill_response (ref_t.token r) (ref_t.trace r) (e, res) with
    | ((e', res'), o) => (with_heap (<[ref_t.entry r := e']> (heap qc)) qc, res', o)
    end
  end.

End CacheOperations.

(** ** Derived notions

    Names for the parts of the operations and for the invariants that the
    properties below speak about. *)
Section Derived.
Context `{Collaborators}.

(** The profile is attached last and leaves type and data alone. *)
Definition attach_profile (traced : bool) (r : response_t) : response_t :=
  if traced then set_profile trace_as_datum r else r.

(** What is left of [fill_body] once [run] has made the entry a stream. *)
Definition serve_and_profile (traced : bool) : M eval_exc unit :=
  (serve >>
   (if traced then modify_res (set_profile trace_as_datum) else ret tt))%qc.

(** The entry when [run] has asked [as_array]. *)
Definition after_as_array (e : entry_t) (root : term_t) (val : val_t)
    (seq : datum_stream_t) : entry_t :=
  apply_actions (concurrent (as_array seq))
    (apply_actions (concurrent (as_seq val))
       (apply_actions (concurrent (maybe_as_promiscuous_grouped_data val))
          (apply_actions (concurrent (eval root)) (with_state state_t.DONE e)))).

(** The annotation by change-feed category at the end of [serve]. *)
Definition annotate (s : datum_stream_t) (r : response_t) : response_t :=
  add_notes (stream_notes s)
    match cfeed_type s with
    | feed_type_t.not_feed =>
      if (length (data r) =? 0)%nat then set_type SUCCESS_SEQUENCE r else r
    | feed_type_t.stream => add_note SEQUENCE_FEED r
    | feed_type_t.point => add_note ATOM_FEED r
    | feed_type_t.orderby_limit => add_note ORDER_BY_LIMIT_FEED r
    | feed_type_t.unioned => add_note UNIONED_FEED r
    end.

(** The tracker of a cache: the next id, the oldest outstanding id and the
    outstanding ids. *)
Definition tracker_of (qc : query_cache_t) : N * N * list N :=
  (next_query_id qc, oldest_outstanding_query_id qc, outstanding_query_ids qc).

(** The tracker keeps the oldest outstanding id up to date, and has issued
    every outstanding id. *)
Definition tracker_inv (qc : query_cache_t) : Prop :=
  oldest_outstanding_query_id qc =
  oldest_of (next_query_id qc) (outstanding_query_ids qc) /\
  Forall (λ v, (v < next_query_id qc)%N) (outstanding_query_ids qc).

(** The entries a cache can hold: made by [create], acted upon by other
    agents, gone through a [fill_response], or marked by the destructor of a
    handle. *)
Inductive reachable : entry_t -> Prop :=
  | reach_new p reg ts go root uuid now :
      reachable (new_entry p reg ts go root uuid now)
  | reach_action e a :
      reachable e -> reachable (apply_action e a)
  | reach_fill_response e tok traced res :
      reachable e -> reachable (fill_response tok traced (e, res)).1.1
  | reach_deleting e :
      reachable e -> state e = state_t.DONE ->
      reachable (with_state state_t.DELETING e).

End Derived.

(** ** The registry of caches, and well-formed caches *)

Section Registry.
Context `{Collaborators}.

(** [query_cache_t::query_cache_t]: the new cache enters the set of caches of
    its thread, which [caches] stands for; the insertion is guaranteed to be
    one. *)
Definition construct (caches : gset N) (this : N)
  : gset N * outcome exception query_cache_t :=
  if decide (this ∈ caches) then (caches, Abort)
  else ({[this]} ∪ caches, Normal (new_query_cache this)).

(** [query_cache_t::~query_cache_t]: the cache leaves the set; the erasure is
    guaranteed to take out one element. *)
Definition destruct_cache (caches : gset N) (qc : query_cache_t)
  : gset N * outcome exception unit :=
  if decide (self qc ∈ caches) then (caches ∖ {[self qc]}, Normal tt)
  else (caches, Abort).

(** The order in which an entry goes through its states. *)
Definition state_rank (s : state_t.t) : nat :=
  match s with
  | state_t.START => 0
  | state_t.STREAM => 1
  | state_t.DONE => 2
  | state_t.DELETING => 3
  end.

(** A cache is well formed when every token leads to a live entry that is not
    being deleted, and no two tokens lead to the same entry. *)
Definition cache_wf (qc : query_cache_t) : Prop :=
  (forall tok ptr, queries qc !! tok = Some ptr ->
     exists e, heap qc !! ptr = Some e /\ state e <> state_t.DELETING) /\
  (forall t1 t2 ptr,
     queries qc !! t1 = Some ptr -> queries qc !! t2 = Some ptr -> t1 = t2).

(** A handle fits a cache when its entry is live and, unless the entry is
    being deleted, its token leads to the entry. *)
Definition ref_ok (qc : query_cache_t) (r : ref_t.t) : Prop :=
  exists e, heap qc !! ref_t.entry r = Some e /\
    (state e <> state_t.DELETING ->
     queries qc !! ref_t.token r = Some (ref_t.entry r)).

End Registry.

Section StaticPart.
Context `{Collaborators}.

(** What an entry is given when it is made and keeps for life: the job id,
    the flags, the backtrace registry, the compiled query's storage and
    optargs, and the start time. *)
Definition static_part (e : entry_t)
  : N * bool * bool * backtrace_registry_t * term_storage_t * global_optargs_t * N :=
  (job_id e, noreply e, profile e, bt_reg e, term_storage e, global_optargs e,
   start_time e).

End StaticPart.

(** ** A small evaluator

    A concrete instance of the collaborators, on which the operations can be
    run: terms that evaluate to a number, to grouped data, to an array, to a
    table read in batches, to a function, and terms whose evaluation fails or
    gets interrupted. *)
Module Toy.

Inductive datum :=
  | d_num (z : Z)
  | d_array (l : list Z)
  | d_frames (l : list N).

Record rows := Rows {
  pending : list Z;
  (** an array in disguise, which [as_array] hands out whole *)
  is_array : bool;
  feed : feed_type_t.t;
  (** what happens to the next batch instead of it being produced *)
  trouble : option (list agent_action * eval_exc)
}.

Inductive term :=
  | q_num (z : Z)
  | q_group (z : Z)
  | q_array (l : list Z)
  | q_table (s : rows)
  | q_func
  | q_fail (acts : list agent_action) (x : eval_exc).

Inductive value :=
  | v_datum (z : Z)
  | v_grouped (z : Z)
  | v_array (l : list Z)
  | v_selection (s : rows)
  | v_func.

Inductive json :=
  | j_term (t : term)
  | j_unknown_term (frame : N)
  | j_bad_datum.

Definition compile (j : json) : eval_exc + term :=
  match j with
  | j_term t => inr t
  | j_unknown_term frame => inl (exc_t "Unknown term" frame)
  | j_bad_datum => inl (datum_exc_t "Malformed datum")
  end.

Definition evaluate (t : term) : suspension value :=
  match t with
  | q_num z => returns (v_datum z)
  | q_group z => returns (v_grouped z)
  | q_array l => returns (v_array l)
  | q_table s => returns (v_selection s)
  | q_func => returns v_func
  | q_fail acts x => Suspension acts (inl x)
  end.

(** The first batch has one row, the later ones two. *)
Definition batch_size (k : batch_type_t.t) : nat :=
  match k with
  | batch_type_t.NORMAL_FIRST => 1%nat
  | batch_type_t.NORMAL => 2%nat
  end.

Definition batch (s : rows) (k : batch_type_t.t)
  : suspension (list datum * rows) :=
  match trouble s with
  | Some (acts, x) => Suspension acts (inl x)
  | None =>
    returns (d_num <$> take (batch_size k) (pending s),
             Rows (drop (batch_size k) (pending s)) (is_array s) (feed s) None)
  end.

Definition exhausted (s : rows) : bool :=
  match feed s, pending s with
  | feed_type_t.not_feed, [] => true
  | _, _ => false
  end.

Definition collaborators : Collaborators := {|
  datum_t := datum;
  json_t := json;
  term_storage_t := json;
  global_optargs_t := json;
  backtrace_registry_t := list N;
  term_t := term;
  val_t := value;
  grouped_data_t := Z;
  datum_stream_t := rows;
  EMPTY_BACKTRACE := d_frames [];
  datum_backtrace reg x :=
    match x with
    | exc_t _ frame => d_frames (frame :: reg)
    | _ => d_frames []
    end;
  empty_bt_reg := [];
  make_term_storage j := inr j;
  make_global_optargs j := inr j;
  preprocess_term_tree j reg := (1%N :: reg, inr tt);
  compile_term := compile;
  eval := evaluate;
  is_convertible_DATUM v := match v with v_datum _ => true | _ => false end;
  is_convertible_SEQUENCE v :=
    match v with v_array _ | v_selection _ => true | _ => false end;
  type_name v :=
    match v with
    | v_datum _ => "DATUM"
    | v_grouped _ => "GROUPED_DATA"
    | v_array _ => "ARRAY"
    | v_selection _ => "SELECTION"
    | v_func => "FUNCTION"
    end;
  as_datum v := returns (match v with v_datum z => d_num z | _ => d_num 0 end);
  maybe_as_promiscuous_grouped_data v :=
    returns (match v with v_grouped z => Some z | _ => None end);
  to_datum_for_client_serialization z := returns (d_num z);
  as_seq v :=
    returns (match v with
             | v_array l => Rows l true feed_type_t.not_feed None
             | v_selection s => s
             | _ => Rows [] true feed_type_t.not_feed None
             end);
  as_array s := returns (if is_array s then Some (d_array (pending s)) else None);
  next_batch := batch;
  is_exhausted := exhausted;
  cfeed_type := feed;
  stream_notes s := [];
  trace_as_datum := d_num 0
|}.
#[local] Existing Instance collaborators.

(** An entry as [create] makes it, for the given root term. *)
Definition entry_of (t : term) (no_reply : bool) : entry_t :=
  Entry state_t.START 7%N no_reply false [1%N] (j_term t) (j_term t) 0%N
        (Some t) None false false.

(** A table of rows that is no feed. *)
Definition table (l : list Z) : rows := Rows l false feed_type_t.not_feed None.
(** A change feed with some rows ready. *)
Definition changes (l : list Z) : rows := Rows l false feed_type_t.stream None.
(** A table whose next batch is interrupted after [acts]. *)
Definition doomed_table (l : list Z) (acts : list agent_action) : rows :=
  Rows l false feed_type_t.not_feed (Some (acts, interrupted_exc_t)).

(** An entry that is streaming [s]. *)
Definition streaming (s : rows) (sent no_reply : bool) : entry_t :=
  Entry state_t.STREAM 7%N no_reply false [1%N] (j_term (q_table s))
        (j_term (q_table s)) 0%N None (Some s) sent false.

Definition params (tok : Z) (v : N) (j : json) : query_params_t.t :=
  query_params_t.Make 0%N tok v false false j j.

(** A cache that has issued the id 0, and one that has issued 0 and 1. *)
Definition one_id_cache : query_cache_t :=
  (issue_query_id (new_query_cache 0)).2.
Definition two_ids_cache : query_cache_t :=
  (issue_query_id one_id_cache).2.

(** START of the query [1] under token 4, then its answer. *)
Definition atom_params : query_params_t.t := params 4 0 (j_term (q_num 1)).
Definition atom_cache : query_cache_t := (create one_id_cache atom_params 1 2 false).1.
Definition atom_ref : ref_t.t := ref_t.Make 1 4 false.
Definition answered_cache : query_cache_t :=
  (ref_fill_response atom_ref empty_response atom_cache).1.1.
Definition answered_entry : entry_t :=
  Entry state_t.DONE 1 false false [1%N] (j_term (q_num 1)) (j_term (q_num 1)) 2
        None None false false.

(** The entry of the query [1] as [create] makes it, and the params of a
    CONTINUE for its token. *)
Definition atom_entry : entry_t :=
  Entry state_t.START 1 false false [1%N] (j_term (q_num 1)) (j_term (q_num 1)) 2
        (Some (q_num 1)) None false false.
Definition continue_params : query_params_t.t := params 4 1 j_bad_datum.

(** The same evaluator with other agents at work on the entry: [during_eval]
    is what they do while a term is evaluated and [during_batch] what they do
    while a batch is produced; the evaluation and the batch end as they do
    undisturbed. *)
Definition disturbed (during_eval during_batch : list agent_action)
  : Collaborators := {|
  datum_t := datum;
  json_t := json;
  term_storage_t := json;
  global_optargs_t := json;
  backtrace_registry_t := list N;
  term_t := term;
  val_t := value;
  grouped_data_t := Z;
  datum_stream_t := rows;
  EMPTY_BACKTRACE := d_frames [];
  datum_backtrace reg x :=
    match x with
    | exc_t _ frame => d_frames (frame :: reg)
    | _ => d_frames []
    end;
  empty_bt_reg := [];
  make_term_storage j := inr j;
  make_global_optargs j := inr j;
  preprocess_term_tree j reg := (1%N :: reg, inr tt);
  compile_term := compile;
  eval t :=
    Suspension (during_eval ++ concurrent (evaluate t)) (result (evaluate t));
  is_convertible_DATUM v := match v with v_datum _ => true | _ => false end;
  is_convertible_SEQUENCE v :=
    match v with v_array _ | v_selection _ => true | _ => false end;
  type_name v :=
    match v with
    | v_datum _ => "DATUM"
    | v_grouped _ => "GROUPED_DATA"
    | v_array _ => "ARRAY"
    | v_selection _ => "SELECTION"
    | v_func => "FUNCTION"
    end;
  as_datum v := returns (match v with v_datum z => d_num z | _ => d_num 0 end);
  maybe_as_promiscuous_grouped_data v :=
    returns (match v with v_grouped z => Some z | _ => None end);
  to_datum_for_client_serialization z := returns (d_num z);
  as_seq v :=
    returns (match v with
             | v_array l => Rows l true feed_type_t.not_feed None
             | v_selection s => s
             | _ => Rows [] true feed_type_t.not_feed None
             end);
  as_array s := returns (if is_array s then Some (d_array (pending s)) else None);
  next_batch s k :=
    Suspension (during_batch ++ concurrent (batch s k)) (result (batch s k));
  is_exhausted := exhausted;
  cfeed_type := feed;
  stream_notes s := [];
  trace_as_datum := d_num 0
|}.


(** An entry as [create] makes it under the disturbed evaluator. *)
Definition disturbed_entry_of (during_eval during_batch : list agent_action)
    (t : term) (no_reply : bool)
  : @entry_t (disturbed during_eval during_batch) :=
  @Entry (disturbed during_eval during_batch)
         state_t.START 7%N no_reply false [1%N] (j_term t) (j_term t) 0%N
         (Some t) None false false.

(** START of a noreply query under token 10 with the id 0, and a NOREPLY_WAIT
    under token 11 with the id 1. *)
Definition noreply_start_params : query_params_t.t :=
  query_params_t.Make 0%N 10 0%N true false (j_term (q_num 1)) (j_term (q_num 1)).
Definition noreply_wait_params : query_params_t.t := params 11 1 j_bad_datum.

End Toy.

(** * Properties *)

(** ** Interference leaves most of an entry alone *)

Section Interference.
Context `{Collaborators}.

Lemma terminate_internal_state (e : entry_t) :
  state (terminate_internal e) =
  match state e with
  | state_t.START | state_t.STREAM => state_t.DONE
  | s => s
  end.
Proof.
  unfold terminate_internal. destruct e as [[] ? ? ? ? ? ? ? ? ? ? ?]; reflexivity.
Qed.

Lemma terminate_internal_pulsed (e : entry_t) :
  persistent_interruptor (terminate_internal e) = true.
Proof. reflexivity. Qed.

Lemma terminate_internal_frame (e : entry_t) :
  root_term (terminate_internal e) = root_term e /\
  stream (terminate_internal e) = stream e /\
  has_sent_batch (terminate_internal e) = has_sent_batch e /\
  noreply (terminate_internal e) = noreply e /\
  bt_reg (terminate_internal e) = bt_reg e.
Proof.
  unfold terminate_internal. destruct (decide _); repeat split.
Qed.

Lemma apply_action_frame (a : agent_action) (e : entry_t) :
  root_term (apply_action e a) = root_term e /\
  stream (apply_action e a) = stream e /\
  has_sent_batch (apply_action e a) = has_sent_batch e /\
  noreply (apply_action e a) = noreply e /\
  bt_reg (apply_action e a) = bt_reg e.
Proof.
  destruct a; [apply terminate_internal_frame | repeat split].
Qed.

Lemma apply_actions_frame (acts : list agent_action) (e : entry_t) :
  root_term (apply_actions acts e) = root_term e /\
  stream (apply_actions acts e) = stream e /\
  has_sent_batch (apply_actions acts e) = has_sent_batch e /\
  noreply (apply_actions acts e) = noreply e /\
  bt_reg (apply_actions acts e) = bt_reg e.
Proof.
  revert e. induction acts as [|a acts IH]; intros e; [repeat split|].
  simpl. destruct (IH (apply_action e a)) as (-> & -> & -> & -> & ->).
  apply apply_action_frame.
Qed.

(** Once DONE or DELETING, an entry keeps its state whatever the others do. *)
Lemma apply_actions_settled (acts : list agent_action) (e : entry_t) :
  state e = state_t.DONE \/ state e = state_t.DELETING ->
  state (apply_actions acts e) = state e.
Proof.
  revert e. induction acts as [|a acts IH]; intros e Hs; [reflexivity|].
  simpl. assert (Ha : state (apply_action e a) = state e).
  { destruct a; cbn [apply_action]; [|reflexivity]. rewrite terminate_internal_state.
    destruct Hs as [-> | ->]; reflexivity. }
  rewrite IH; rewrite Ha; auto.
Qed.

(** The others move an entry to DONE or not at all. *)
Lemma apply_actions_state (acts : list agent_action) (e : entry_t) :
  state (apply_actions acts e) = state e \/
  state (apply_actions acts e) = state_t.DONE.
Proof.
  revert e. induction acts as [|a acts IH]; intros e; [left; reflexivity|].
  simpl. destruct a; cbn [apply_action].
  - destruct (IH (terminate_internal e)) as [-> | ->]; [|right; reflexivity].
    rewrite terminate_internal_state. destruct (state e); auto.
  - destruct (IH (with_persistent_interruptor true e)) as [-> | ->]; auto.
Qed.

End Interference.

(** ** The first evaluation *)

Ltac unfold_M :=
  cbv beta iota delta [try_catch bind get_entry get_res modify_entry modify_res
    ret throw abort guarantee call fst snd] in *.

Section FirstEvaluation.
Context `{Collaborators}.

Lemma attach_profile_type_data (traced : bool) (r : response_t) :
  type (attach_profile traced r) = type r /\
  data (attach_profile traced r) = data r.
Proof. destruct traced; split; reflexivity. Qed.

(** [fill_response] on a START entry, by what [run] does. *)
Lemma fill_body_START (traced : bool) (e : entry_t) (res : response_t) :
  state e = state_t.START ->
  fill_body traced (e, res) =
  match run (e, res) with
  | ((e1, res1), Normal _) =>
    if decide (state e1 = state_t.STREAM)
    then serve_and_profile traced (with_root_term None e1, res1)
    else ((with_root_term None e1, attach_profile traced res1), Normal tt)
  | (s1, Throw x) => (s1, Throw x)
  | (s1, Abort) => (s1, Abort)
  end.
Proof.
  intros Hst. unfold fill_body, serve_and_profile, attach_profile.
  unfold bind, get_entry, modify_entry, modify_res, ret. cbn [fst snd].
  rewrite Hst. destruct (decide _) as [_|[]]; [|reflexivity].
  destruct (run (e, res)) as [[e1 res1] [[]|x|]]; try reflexivity.
  cbn [fst snd]. change (state (with_root_term None e1)) with (state e1).
  destruct (decide (state e1 = state_t.STREAM)); [reflexivity|].
  destruct traced; reflexivity.
Qed.

Lemma fill_response_START (tok : Z) (traced : bool) (e : entry_t) (res : response_t) :
  state e = state_t.START ->
  fill_response tok traced (e, res) =
  try_catch (fill_body traced) fill_handler (e, res).
Proof.
  intros Hst. unfold fill_response, bind, get_entry. cbn [fst].
  destruct (decide _) as [[? _]|_]; [congruence | reflexivity].
Qed.

(** The cases of [run]. *)
Lemma run_datum (e : entry_t) (res : response_t) (root : term_t) (val : val_t)
    (d : datum_t) :
  root_term e = Some root ->
  result (eval root) = inr val ->
  is_convertible_DATUM val = true ->
  result (as_datum val) = inr d ->
  run (e, res) =
  ((apply_actions (concurrent (as_datum val))
      (apply_actions (concurrent (eval root)) (with_state state_t.DONE e)),
    set_data [d] (set_type SUCCESS_ATOM res)), Normal tt).
Proof.
  intros Hroot Hval Hconv Hd. unfold run. unfold_M. simpl.
  rewrite Hroot, Hval, Hconv. simpl. rewrite Hd. reflexivity.
Qed.

Lemma run_grouped (e : entry_t) (res : response_t) (root : term_t) (val : val_t)
    (g : grouped_data_t) (d : datum_t) :
  root_term e = Some root ->
  result (eval root) = inr val ->
  is_convertible_DATUM val = false ->
  result (maybe_as_promiscuous_grouped_data val) = inr (Some g) ->
  result (to_datum_for_client_serialization g) = inr d ->
  run (e, res) =
  ((apply_actions (concurrent (to_datum_for_client_serialization g))
      (apply_actions (concurrent (maybe_as_promiscuous_grouped_data val))
         (apply_actions (concurrent (eval root)) (with_state state_t.DONE e))),
    set_data [d] (set_type SUCCESS_ATOM res)), Normal tt).
Proof.
  intros Hroot Hval Hconv Hg Hd. unfold run. unfold_M. simpl.
  rewrite Hroot, Hval, Hconv. simpl. rewrite Hg. simpl. rewrite Hd. reflexivity.
Qed.

Lemma run_array (e : entry_t) (res : response_t) (root : term_t) (val : val_t)
    (seq : datum_stream_t) (a : datum_t) :
  root_term e = Some root ->
  result (eval root) = inr val ->
  is_convertible_DATUM val = false ->
  result (maybe_as_promiscuous_grouped_data val) = inr None ->
  is_convertible_SEQUENCE val = true ->
  result (as_seq val) = inr seq ->
  result (as_array seq) = inr (Some a) ->
  run (e, res) =
  ((after_as_array e root val seq, set_data [a] (set_type SUCCESS_ATOM res)),
   Normal tt).
Proof.
  intros Hroot Hval Hconv Hg Hseq Hs Ha. unfold run, after_as_array. unfold_M. simpl.
  rewrite Hroot, Hval, Hconv. simpl. rewrite Hg. simpl. rewrite Hseq, Hs. simpl.
  rewrite Ha. reflexivity.
Qed.

Lemma run_stream (e : entry_t) (res : response_t) (root : term_t) (val : val_t)
    (seq : datum_stream_t) :
  root_term e = Some root ->
  result (eval root) = inr val ->
  is_convertible_DATUM val = false ->
  result (maybe_as_promiscuous_grouped_data val) = inr None ->
  is_convertible_SEQUENCE val = true ->
  result (as_seq val) = inr seq ->
  result (as_array seq) = inr None ->
  run (e, res) =
  ((with_state state_t.STREAM
      (with_has_sent_batch false
         (with_stream (Some seq) (after_as_array e root val seq))), res),
   Normal tt).
Proof.
  intros Hroot Hval Hconv Hg Hseq Hs Ha. unfold run, after_as_array. unfold_M. simpl.
  rewrite Hroot, Hval, Hconv. simpl. rewrite Hg. simpl. rewrite Hseq, Hs. simpl.
  rewrite Ha. reflexivity.
Qed.

Lemma run_other (e : entry_t) (res : response_t) (root : term_t) (val : val_t) :
  root_term e = Some root ->
  result (eval root) = inr val ->
  is_convertible_DATUM val = false ->
  result (maybe_as_promiscuous_grouped_data val) = inr None ->
  is_convertible_SEQUENCE val = false ->
  run (e, res) =
  ((apply_actions (concurrent (maybe_as_promiscuous_grouped_data val))
      (apply_actions (concurrent (eval root)) (with_state state_t.DONE e)), res),
   Throw (rfail_toplevel (result_type_message (type_name val)))).
Proof.
  intros Hroot Hval Hconv Hg Hseq. unfold run. unfold_M. simpl.
  rewrite Hroot, Hval, Hconv. simpl. rewrite Hg. simpl. rewrite Hseq. reflexivity.
Qed.

End FirstEvaluation.

(** Claim C1.  A [fill_response] on an entry in state START sets the state
    to DONE before it evaluates the root term (an evaluation that throws
    leaves the entry DONE).  When evaluation gives a value: a value
    convertible to a datum, promiscuous grouped data, or a sequence that
    [as_array] materializes gives a SUCCESS_ATOM response carrying that datum
    and the state stays DONE; a sequence that is not materializable is put
    into [stream] with [has_sent_batch] false and state STREAM, and the same
    [fill_response] goes on with [serve]; any other value raises the error
    that names the type of the value.  The cases are tried in this order. *)
Theorem fill_response_from_START `{Collaborators} (tok : Z) (traced : bool)
    (e : entry_t) (res : response_t) (root : term_t) :
  state e = state_t.START ->
  root_term e = Some root ->
  (forall x, result (eval root) = inl x ->
     fill_body traced (e, res) =
     ((apply_actions (concurrent (eval root)) (with_state state_t.DONE e), res),
      Throw x)) /\
  (forall val, result (eval root) = inr val ->
     (is_convertible_DATUM val = true ->
      forall d, result (as_datum val) = inr d ->
      exists e' res',
        fill_response tok traced (e, res) = ((e', res'), Normal tt) /\
        state e' = state_t.DONE /\
        type res' = Some SUCCESS_ATOM /\ data res' = [d]) /\
     (is_convertible_DATUM val = false ->
      forall g d,
        result (maybe_as_promiscuous_grouped_data val) = inr (Some g) ->
        result (to_datum_for_client_serialization g) = inr d ->
        exists e' res',
          fill_response tok traced (e, res) = ((e', res'), Normal tt) /\
          state e' = state_t.DONE /\
          type res' = Some SUCCESS_ATOM /\ data res' = [d]) /\
     (is_convertible_DATUM val = false ->
      result (maybe_as_promiscuous_grouped_data val) = inr None ->
      is_convertible_SEQUENCE val = true ->
      forall seq, result (as_seq val) = inr seq ->
        (forall a, result (as_array seq) = inr (Some a) ->
           exists e' res',
             fill_response tok traced (e, res) = ((e', res'), Normal tt) /\
             state e' = state_t.DONE /\
             type res' = Some SUCCESS_ATOM /\ data res' = [a]) /\
        (result (as_array seq) = inr None ->
           exists e1,
             stream e1 = Some seq /\ has_sent_batch e1 = false /\
             state e1 = state_t.STREAM /\
             fill_response tok traced (e, res) =
             try_catch (serve_and_profile traced) fill_handler (e1, res))) /\
     (is_convertible_DATUM val = false ->
      result (maybe_as_promiscuous_grouped_data val) = inr None ->
      is_convertible_SEQUENCE val = false ->
      exists e',
        fill_response tok traced (e, res) =
        ((e', res),
         Throw (bt_exc_t RUNTIME_ERROR
                  ("Query result must be of type DATUM, GROUPED_DATA, or STREAM (got "
                   +:+ type_name val +:+ ").")
                  (datum_backtrace (bt_reg e)
                     (rfail_toplevel (result_type_message (type_name val)))))) /\
        state e' = state_t.DONE)).
Proof.
  intros Hst Hroot.
  assert (Hdone : forall acts,
             state (apply_actions acts (with_state state_t.DONE e)) = state_t.DONE).
  { intros acts. rewrite apply_actions_settled; auto. }
  assert (Hdone' : forall acts e0, state e0 = state_t.DONE ->
             state (apply_actions acts e0) = state_t.DONE).
  { intros acts e0 H0. rewrite apply_actions_settled; auto. }
  split.
  - intros x Hx. rewrite fill_body_START by assumption.
    unfold run. unfold_M. simpl. rewrite Hroot, Hx. reflexivity.
  - intros val Hval. repeat split.
    + intros Hconv d Hd. rewrite fill_response_START by assumption.
      unfold try_catch. rewrite fill_body_START by assumption.
      rewrite (run_datum e res root val d) by assumption.
      rewrite decide_False by (rewrite !Hdone'; auto; discriminate).
      eexists _, _. split; [reflexivity|].
      split; [cbn; auto|]. apply attach_profile_type_data.
    + intros Hconv g d Hg Hd. rewrite fill_response_START by assumption.
      unfold try_catch. rewrite fill_body_START by assumption.
      rewrite (run_grouped e res root val g d) by assumption.
      rewrite decide_False by (rewrite !Hdone'; auto; discriminate).
      eexists _, _. split; [reflexivity|].
      split; [cbn; auto|]. apply attach_profile_type_data.
    + intros a Ha. rewrite fill_response_START by assumption.
      unfold try_catch. rewrite fill_body_START by assumption.
      rewrite (run_array e res root val seq a) by assumption.
      unfold after_as_array.
      rewrite decide_False by (rewrite !Hdone'; auto; discriminate).
      eexists _, _. split; [reflexivity|].
      split; [cbn; auto|]. apply attach_profile_type_data.
    + intros Ha. eexists. split; [|split; [|split]]; cycle 3.
      * rewrite fill_response_START by assumption.
        unfold try_catch at 1. rewrite fill_body_START by assumption.
        rewrite (run_stream e res root val seq) by assumption.
        rewrite decide_True by reflexivity. reflexivity.
      * reflexivity.
      * reflexivity.
      * reflexivity.
    + intros Hconv Hg Hseq. rewrite fill_response_START by assumption.
      unfold try_catch. rewrite fill_body_START by assumption.
      rewrite (run_other e res root val) by assumption.
      eexists. split.
      * unfold fill_handler, rfail_toplevel. unfold_M. cbn [fst snd].
        destruct (apply_actions_frame (concurrent (maybe_as_promiscuous_grouped_data val))
          (apply_actions (concurrent (eval root)) (with_state state_t.DONE e)))
          as (_ & _ & _ & _ & Hb).
        destruct (apply_actions_frame (concurrent (eval root))
                    (with_state state_t.DONE e))
          as (_ & _ & _ & _ & Hb').
        destruct (terminate_internal_frame
          (apply_actions (concurrent (maybe_as_promiscuous_grouped_data val))
          (apply_actions (concurrent (eval root)) (with_state state_t.DONE e))))
          as (_ & _ & _ & _ & Hb'').
        rewrite Hb'', Hb, Hb'. reflexivity.
      * rewrite terminate_internal_state, !Hdone'; auto.
Qed.

(** ** Continuation *)

Section Continuation.
Context `{Collaborators}.

(** [serve] when the batch arrives. *)
Lemma serve_batch (e : entry_t) (res : response_t) (s s' : datum_stream_t)
    (ds : list datum_t) :
  stream e = Some s ->
  result (next_batch s (batch_type_of e)) = inr (ds, s') ->
  let e1 := with_has_sent_batch true
              (with_stream (Some s')
                 (apply_actions (concurrent (next_batch s (batch_type_of e))) e)) in
  serve (e, res) =
  if is_exhausted s' || noreply e then
    if decide (state e1 = state_t.STREAM) then
      ((with_state state_t.DONE e1,
        annotate s' (set_type SUCCESS_SEQUENCE (set_data ds res))), Normal tt)
    else ((e1, set_data ds res), Abort)
  else ((e1, annotate s' (set_type SUCCESS_PARTIAL (set_data ds res))), Normal tt).
Proof.
  intros Hs Hb e1.
  destruct (apply_actions_frame (concurrent (next_batch s (batch_type_of e))) e)
    as (_ & _ & _ & Hn & _).
  unfold serve, annotate. unfold_M. rewrite Hs, Hb.
  cbn [noreply with_stream with_has_sent_batch]. rewrite Hn.
  destruct (is_exhausted s' || noreply e).
  - fold e1. unfold bool_decide.
    destruct (decide_rel eq (state e1) state_t.STREAM) as [He|He].
    + rewrite decide_True by exact He.
      destruct (cfeed_type s'); try reflexivity.
      cbn [data set_data set_type]. destruct (length ds =? 0)%nat; reflexivity.
    + rewrite decide_False by exact He. reflexivity.
  - fold e1. destruct (cfeed_type s'); try reflexivity.
    cbn [data set_data set_type]. destruct (length ds =? 0)%nat; reflexivity.
Qed.

(** [serve] when the batch does not arrive. *)
Lemma serve_throws (e : entry_t) (res : response_t) (s : datum_stream_t)
    (x : eval_exc) :
  stream e = Some s ->
  result (next_batch s (batch_type_of e)) = inl x ->
  serve (e, res) =
  ((apply_actions (concurrent (next_batch s (batch_type_of e))) e, res), Throw x).
Proof.
  intros Hs Hb. unfold serve. unfold_M. rewrite Hs, Hb. reflexivity.
Qed.

Lemma annotate_type (s : datum_stream_t) (r : response_t) :
  type (annotate s r) =
  match cfeed_type s with
  | feed_type_t.not_feed =>
    if (length (data r) =? 0)%nat then Some SUCCESS_SEQUENCE else type r
  | _ => type r
  end.
Proof.
  unfold annotate. destruct (cfeed_type s); try reflexivity.
  destruct (length (data r) =? 0)%nat; reflexivity.
Qed.


End Continuation.



(** ** What every [fill_response] preserves *)

Section FillResponseInvariants.
Context `{Collaborators}.

Lemma apply_actions_root_term (acts : list agent_action) (e : entry_t) :
  root_term (apply_actions acts e) = root_term e.
Proof. apply apply_actions_frame. Qed.

Lemma apply_actions_DONE (acts : list agent_action) (e : entry_t) :
  state e = state_t.DONE -> state (apply_actions acts e) = state_t.DONE.
Proof. intros He. rewrite apply_actions_settled; auto. Qed.

Ltac still_done := repeat apply apply_actions_DONE; assumption.
Ltac run_done :=
  split; [congruence | first [left; reflexivity | right; repeat split; eauto]].
Ltac settle :=
  rewrite ?apply_actions_root_term, ?apply_actions_DONE by still_done; run_done.

(** [run] never touches the root term, and leaves the entry DONE unless it
    returns with a stream. *)
Lemma run_post (e : entry_t) (res : response_t) :
  forall e' res' o, run (e, res) = ((e', res'), o) ->
    root_term e' = root_term e /\
    (state e' = state_t.DONE \/
     (state e' = state_t.STREAM /\ o = Normal tt /\ is_Some (stream e'))).
Proof.
  intros e' res' o. unfold run. unfold_M.
  cbn [root_term with_state].
  destruct (root_term e) as [root|] eqn:Hroot.
  2:{ intros [= <- <- <-]. split; [exact Hroot | left; reflexivity]. }
  assert (H0 : state (with_state state_t.DONE e) = state_t.DONE) by reflexivity.
  assert (R0 : root_term (with_state state_t.DONE e) = Some root) by exact Hroot.
  revert H0 R0. generalize (with_state state_t.DONE e). intros e0 H0 R0.
  destruct (eval root) as [a1 [x|val]]; cbn [concurrent result].
  { intros [= <- <- <-]. settle. }
  destruct (is_convertible_DATUM val).
  { destruct (as_datum val) as [a2 [x|d]]; cbn [concurrent result];
      intros [= <- <- <-];
      settle. }
  destruct (maybe_as_promiscuous_grouped_data val) as [a2 [x|[g|]]];
    cbn [concurrent result].
  { intros [= <- <- <-]. settle. }
  { destruct (to_datum_for_client_serialization g) as [a3 [x|d]];
      cbn [concurrent result]; intros [= <- <- <-];
      settle. }
  destruct (is_convertible_SEQUENCE val).
  2:{ intros [= <- <- <-]. settle. }
  destruct (as_seq val) as [a3 [x|seq]]; cbn [concurrent result].
  { intros [= <- <- <-]. settle. }
  destruct (as_array seq) as [a4 [x|[a|]]]; cbn [concurrent result];
    intros [= <- <- <-];
    cbn [root_term state stream with_stream with_has_sent_batch with_state];
    settle.
Qed.

(** [serve] never touches the root term and never makes an entry START. *)
Lemma serve_post (e : entry_t) (res : response_t) :
  forall e' res' o, serve (e, res) = ((e', res'), o) ->
    root_term e' = root_term e /\
    (state e' = state e \/ state e' = state_t.DONE).
Proof.
  intros e' res' o.
  destruct (stream e) as [s|] eqn:Hs.
  2:{ unfold serve. unfold_M. rewrite Hs. intros [= <- <- <-]. auto. }
  destruct (next_batch s (batch_type_of e)) as [acts [x|[ds s']]] eqn:Hb.
  - rewrite (serve_throws e res s x Hs) by (rewrite Hb; reflexivity).
    rewrite Hb. cbn [concurrent]. intros [= <- <- <-].
    rewrite apply_actions_root_term. split; [reflexivity|].
    apply apply_actions_state.
  - rewrite (serve_batch e res s s' ds Hs) by (rewrite Hb; reflexivity).
    rewrite Hb. cbn [concurrent].
    destruct (is_exhausted s' || noreply e);
      [destruct (decide _)|]; intros [= <- <- <-];
      cbn [root_term state with_state with_stream with_has_sent_batch];
      rewrite apply_actions_root_term; split; auto using apply_actions_state.
Qed.

Lemma serve_and_profile_post (traced : bool) (e : entry_t) (res : response_t) :
  forall e' res' o, serve_and_profile traced (e, res) = ((e', res'), o) ->
    root_term e' = root_term e /\
    (state e' = state e \/ state e' = state_t.DONE).
Proof.
  intros e' res' o. unfold serve_and_profile, bind.
  destruct (serve (e, res)) as [[e1 res1] o1] eqn:Hserve.
  apply serve_post in Hserve.
  destruct o1 as [[]|x|]; [destruct traced|..]; intros [= <- <- <-]; exact Hserve.
Qed.

(** The [try] block on an entry that is not in state START. *)
Lemma fill_body_not_START (traced : bool) (e : entry_t) (res : response_t) :
  state e <> state_t.START ->
  fill_body traced (e, res) =
  if decide (state e = state_t.STREAM)
  then serve_and_profile traced (e, res)
  else ((e, attach_profile traced res), Normal tt).
Proof.
  intros Hst. unfold fill_body, serve_and_profile, attach_profile.
  unfold bind, get_entry, modify_entry, modify_res, ret. cbn [fst snd].
  rewrite decide_False by exact Hst. cbv beta. cbn [fst snd].
  destruct (decide (state e = state_t.STREAM)); [reflexivity|].
  destruct traced; reflexivity.
Qed.

(** After the [try] block the entry is not START; its root term is the one
    it had, or has been cleared; and it has been cleared when the block
    started in START and [run] returned. *)
Lemma fill_body_post (traced : bool) (e : entry_t) (res : response_t) :
  forall e' res' o, fill_body traced (e, res) = ((e', res'), o) ->
    state e' <> state_t.START /\
    (root_term e' = root_term e \/ root_term e' = None) /\
    (state e = state_t.START ->
     (state e' = state_t.STREAM \/ exists s1, run (e, res) = (s1, Normal tt)) ->
     root_term e' = None) /\
    (state e <> state_t.START -> state e' = state e \/ state e' = state_t.DONE).
Proof.
  intros e' res' o. destruct (decide (state e = state_t.START)) as [Hst|Hst].
  - rewrite (fill_body_START traced e res Hst).
    destruct (run (e, res)) as [[e1 res1] o1] eqn:Hrun.
    destruct (run_post e res e1 res1 o1 Hrun) as [Hr Hs].
    destruct o1 as [[]|x|].
    + destruct (decide (state e1 = state_t.STREAM)) as [He1|He1].
      * intros Hsp. apply serve_and_profile_post in Hsp.
        cbn [root_term state with_root_term] in Hsp. destruct Hsp as [Hr' Hs'].
        repeat split; auto; try congruence.
        destruct Hs' as [-> | ->]; congruence.
      * intros [= <- <- <-]. cbn [root_term state with_root_term].
        destruct Hs as [Hs | (Hs & _)]; [|contradiction].
        repeat split; auto; try congruence.
    + intros [= <- <- <-].
      destruct Hs as [Hs | (_ & Hs & _)]; [|discriminate].
      repeat split; auto; try congruence.
      intros _ [Hc | (s1 & Hc)]; congruence.
    + intros [= <- <- <-].
      destruct Hs as [Hs | (_ & Hs & _)]; [|discriminate].
      repeat split; auto; try congruence.
      intros _ [Hc | (s1 & Hc)]; congruence.
  - rewrite (fill_body_not_START traced e res Hst).
    destruct (decide (state e = state_t.STREAM)) as [He|He].
    + intros Hsp. apply serve_and_profile_post in Hsp. destruct Hsp as [Hr' Hs'].
      repeat split; auto; try contradiction.
      destruct Hs' as [-> | ->]; congruence.
    + intros [= <- <- <-]. repeat split; auto; contradiction.
Qed.

(** The handlers keep the root term, move the state to DONE or not at all,
    and throw nothing but a runtime error or an [interrupted_exc_t]. *)
Lemma fill_handler_post (x : eval_exc) (e : entry_t) (res : response_t) :
  forall e' res' o, fill_handler x (e, res) = ((e', res'), o) ->
    root_term e' = root_term e /\
    (state e' = state e \/ state e' = state_t.DONE) /\
    (forall ty m b, o = Throw (bt_exc_t ty m b) -> ty = RUNTIME_ERROR).
Proof.
  intros e' res' o.
  assert (Ht : state (terminate_internal e) = state e \/
               state (terminate_internal e) = state_t.DONE).
  { rewrite terminate_internal_state. destruct (state e); auto. }
  destruct (terminate_internal_frame e) as (Hr & _).
  unfold fill_handler. unfold_M.
  destruct x as [|w b|w|w].
  - destruct (persistent_interruptor e); [destruct (decide _)|];
      intros [= <- <- <-]; repeat split; auto; congruence.
  - intros [= <- <- <-]. repeat split; auto; congruence.
  - intros [= <- <- <-]. repeat split; auto; congruence.
  - intros [= <- <- <-]. repeat split; auto; congruence.
Qed.

(** What a [fill_response] leaves behind, however it ends. *)
Lemma fill_response_post (tok : Z) (traced : bool) (e : entry_t) (res : response_t) :
  forall e' res' o, fill_response tok traced (e, res) = ((e', res'), o) ->
    (state e <> state_t.START -> state e' <> state_t.START) /\
    ((state e = state_t.START \/ state e = state_t.STREAM) ->
     state e' <> state_t.START) /\
    (root_term e' = root_term e \/ root_term e' = None) /\
    (state e = state_t.START -> state e' = state_t.STREAM -> root_term e' = None).
Proof.
  intros e' res' o. unfold fill_response, bind, get_entry. cbn [fst].
  destruct (decide _) as [[H1 H2]|Hn].
  { intros [= <- <- <-]. repeat split; auto; contradiction. }
  unfold try_catch.
  destruct (fill_body traced (e, res)) as [[e1 res1] o1] eqn:Hbody.
  destruct (fill_body_post traced e res e1 res1 o1 Hbody) as (B1 & B2 & B3 & B4).
  destruct o1 as [[]|x|].
  - intros [= <- <- <-]. repeat split; auto.
  - intros Hh. destruct (fill_handler_post x e1 res1 e' res' o Hh) as (K1 & K2 & _).
    assert (Hs : state e' <> state_t.START) by (destruct K2 as [-> | ->]; congruence).
    rewrite K1. repeat split; auto.
    intros Hst Hstr. apply B3; auto. left.
    destruct K2 as [<- | K2]; [exact Hstr | congruence].
  - intros [= <- <- <-]. repeat split; auto.
Qed.

End FillResponseInvariants.

(** ** The cache operations and the token map *)

Section TokenMap.
Context `{Collaborators}.

(** Releasing a query id touches nothing but the tracker. *)
Lemma release_query_id_frame (v : N) (qc : query_cache_t) :
  self (release_query_id v qc) = self qc /\
  queries (release_query_id v qc) = queries qc /\
  heap (release_query_id v qc) = heap qc /\
  spawned (release_query_id v qc) = spawned qc /\
  next_query_id (release_query_id v qc) = next_query_id qc.
Proof.
  unfold release_query_id. destruct (decide _); repeat split.
Qed.

Lemma maybe_release_query_id_frame (p : query_params_t.t) (qc : query_cache_t) :
  self (maybe_release_query_id p qc) = self qc /\
  queries (maybe_release_query_id p qc) = queries qc /\
  heap (maybe_release_query_id p qc) = heap qc /\
  spawned (maybe_release_query_id p qc) = spawned qc /\
  next_query_id (maybe_release_query_id p qc) = next_query_id qc.
Proof.
  unfold maybe_release_query_id. destruct (query_params_t.noreply p);
    [repeat split | apply release_query_id_frame].
Qed.

Lemma self_eqb (qc : query_cache_t) (p : query_params_t.t) :
  self qc = query_params_t.query_cache p ->
  negb (self qc =? query_params_t.query_cache p)%N = false.
Proof. intros ->. rewrite N.eqb_refl. reflexivity. Qed.

(** [create] on a token that is in the map. *)
Lemma create_duplicate (qc : query_cache_t) (p : query_params_t.t)
    (uuid now : N) (interrupted : bool) :
  self qc = query_params_t.query_cache p ->
  is_Some (queries qc !! query_params_t.token p) ->
  create qc p uuid now interrupted =
  (maybe_release_query_id p qc,
   Throw (bt_exc_t CLIENT_ERROR
            (duplicate_token_message (query_params_t.token p)) EMPTY_BACKTRACE)).
Proof.
  intros Hself Hin. unfold create. rewrite (self_eqb qc p Hself).
  destruct (maybe_release_query_id_frame p qc) as (_ & -> & _).
  rewrite decide_True by exact Hin. reflexivity.
Qed.

(** [create] on a token that is not in the map, by what the compiler and
    the handle constructor do. *)
Lemma create_fresh (qc : query_cache_t) (p : query_params_t.t)
    (uuid now : N) (interrupted : bool) :
  self qc = query_params_t.query_cache p ->
  queries qc !! query_params_t.token p = None ->
  let qc1 := maybe_release_query_id p qc in
  let tok := query_params_t.token p in
  create qc p uuid now interrupted =
  match compile_query p with
  | (reg, inl (exc_t what bt)) =>
    (qc1, Throw (bt_exc_t COMPILE_ERROR what (datum_backtrace reg (exc_t what bt))))
  | (_, inl (datum_exc_t what)) =>
    (qc1, Throw (bt_exc_t COMPILE_ERROR what EMPTY_BACKTRACE))
  | (_, inl x) => (qc1, Throw (uncaught x))
  | (reg, inr (ts, go, root)) =>
    if interrupted then (qc1, Throw (uncaught interrupted_exc_t))
    else
      let ptr := fresh (dom (heap qc)) in
      (with_queries (<[tok := ptr]> (queries qc))
         (with_heap (<[ptr := new_entry p reg ts go root uuid now]> (heap qc)) qc1),
       Normal (ref_t.Make ptr tok (query_params_t.profile p)))
  end.
Proof.
  intros Hself Hout qc1 tok. unfold create. rewrite (self_eqb qc p Hself).
  fold qc1. fold tok.
  assert (Hq : queries qc1 = queries qc) by apply maybe_release_query_id_frame.
  assert (Hh : heap qc1 = heap qc) by apply maybe_release_query_id_frame.
  rewrite Hq, Hh.
  rewrite decide_False by (unfold tok; rewrite Hout; apply is_Some_None).
  destruct (compile_query p) as [reg [x|[[ts go] root]]]; [reflexivity|].
  unfold new_ref. destruct interrupted; [reflexivity|].
  unfold tok. rewrite Hout. reflexivity.
Qed.

Lemma get_absent (qc : query_cache_t) (p : query_params_t.t) (interrupted : bool) :
  self qc = query_params_t.query_cache p ->
  queries qc !! query_params_t.token p = None ->
  get qc p interrupted =
  (maybe_release_query_id p qc,
   Throw (bt_exc_t CLIENT_ERROR
            (not_in_cache_message (query_params_t.token p)) EMPTY_BACKTRACE)).
Proof.
  intros Hself Hout. unfold get. rewrite (self_eqb qc p Hself).
  destruct (maybe_release_query_id_frame p qc) as (_ & -> & _).
  rewrite Hout. reflexivity.
Qed.

Lemma get_present (qc : query_cache_t) (p : query_params_t.t) (interrupted : bool)
    (ptr : positive) :
  self qc = query_params_t.query_cache p ->
  queries qc !! query_params_t.token p = Some ptr ->
  get qc p interrupted =
  (maybe_release_query_id p qc,
   match heap qc !! ptr with
   | None => Abort
   | Some e => new_ref e (query_params_t.token p) ptr interrupted
   end).
Proof.
  intros Hself Hin. unfold get. rewrite (self_eqb qc p Hself).
  destruct (maybe_release_query_id_frame p qc) as (_ & -> & -> & _).
  rewrite Hin. destruct (heap qc !! ptr); reflexivity.
Qed.

(** [create] raises no client error but the duplicate token. *)
Lemma create_client_error (qc : query_cache_t) (p : query_params_t.t)
    (uuid now : N) (interrupted : bool) (m : string) (b : datum_t) :
  self qc = query_params_t.query_cache p ->
  snd (create qc p uuid now interrupted) = Throw (bt_exc_t CLIENT_ERROR m b) ->
  is_Some (queries qc !! query_params_t.token p) /\
  m = duplicate_token_message (query_params_t.token p) /\ b = EMPTY_BACKTRACE.
Proof.
  intros Hself. destruct (queries qc !! query_params_t.token p) as [ptr|] eqn:Hq.
  - rewrite (create_duplicate qc p uuid now interrupted Hself)
      by (rewrite Hq; eauto).
    intros [= <- <-]. split; [eauto | split; reflexivity].
  - rewrite (create_fresh qc p uuid now interrupted Hself Hq).
    destruct (compile_query p) as [reg [[|w bt|w|w]|[[ts go] root]]];
      cbn [snd]; try discriminate.
    destruct interrupted; discriminate.
Qed.

End TokenMap.

(** Claim C3.  For query params issued against the cache: [create] raises the
    CLIENT_ERROR "duplicate token" exactly when the token is in the map; [get]
    raises the CLIENT_ERROR "token not in stream cache" exactly when the token
    is absent; [fill_response] raises the CLIENT_ERROR "duplicate token"
    exactly when the state of the entry is neither START nor STREAM;
    [noreply_wait] raises the CLIENT_ERROR "duplicate token" exactly when the
    token is present; and every such error has the empty backtrace. *)
Theorem client_errors `{Collaborators} (qc : query_cache_t) (p : query_params_t.t) :
  self qc = query_params_t.query_cache p ->
  let tok := query_params_t.token p in
  (forall uuid now interrupted,
     (is_Some (queries qc !! tok) ->
      snd (create qc p uuid now interrupted) =
      Throw (bt_exc_t CLIENT_ERROR ("ERROR: duplicate token " +:+ pretty tok)
                      EMPTY_BACKTRACE)) /\
     (forall m b,
        snd (create qc p uuid now interrupted) = Throw (bt_exc_t CLIENT_ERROR m b) ->
        is_Some (queries qc !! tok) /\
        m = "ERROR: duplicate token " +:+ pretty tok /\ b = EMPTY_BACKTRACE)) /\
  (forall interrupted,
     (queries qc !! tok = None ->
      snd (get qc p interrupted) =
      Throw (bt_exc_t CLIENT_ERROR ("Token " +:+ pretty tok +:+ " not in stream cache.")
                      EMPTY_BACKTRACE)) /\
     (forall m b,
        snd (get qc p interrupted) = Throw (bt_exc_t CLIENT_ERROR m b) ->
        queries qc !! tok = None /\
        m = "Token " +:+ pretty tok +:+ " not in stream cache." /\
        b = EMPTY_BACKTRACE)) /\
  (forall traced e res,
     (state e <> state_t.START /\ state e <> state_t.STREAM ->
      fill_response tok traced (e, res) =
      ((e, res),
       Throw (bt_exc_t CLIENT_ERROR ("ERROR: duplicate token " +:+ pretty tok)
                       EMPTY_BACKTRACE))) /\
     (forall m b,
        snd (fill_response tok traced (e, res)) = Throw (bt_exc_t CLIENT_ERROR m b) ->
        (state e <> state_t.START /\ state e <> state_t.STREAM) /\
        m = "ERROR: duplicate token " +:+ pretty tok /\ b = EMPTY_BACKTRACE)) /\
  (forall evs,
     (is_Some (queries qc !! tok) ->
      noreply_wait qc p evs =
      (qc, Some (Throw (bt_exc_t CLIENT_ERROR ("ERROR: duplicate token " +:+ pretty tok)
                                 EMPTY_BACKTRACE)))) /\
     (forall m b,
        snd (noreply_wait qc p evs) = Some (Throw (bt_exc_t CLIENT_ERROR m b)) ->
        is_Some (queries qc !! tok) /\
        m = "ERROR: duplicate token " +:+ pretty tok /\ b = EMPTY_BACKTRACE)).
Proof.
  intros Hself tok. split; [|split; [|split]].
  - intros uuid now interrupted. split.
    + intros Hin. rewrite (create_duplicate qc p uuid now interrupted Hself Hin).
      reflexivity.
    + intros m b Hc.
      apply (create_client_error qc p uuid now interrupted m b Hself Hc).
  - intros interrupted. split.
    + intros Hout. rewrite (get_absent qc p interrupted Hself Hout). reflexivity.
    + intros m b. destruct (queries qc !! tok) as [ptr|] eqn:Hq.
      * rewrite (get_present qc p interrupted ptr Hself Hq). cbn [snd].
        destruct (heap qc !! ptr); [|discriminate].
        unfold new_ref. destruct interrupted; discriminate.
      * rewrite (get_absent qc p interrupted Hself Hq).
        intros [= <- <-]. repeat split.
  - intros traced e res. split.
    + intros Hst. unfold fill_response, bind, get_entry. cbn [fst].
      rewrite decide_True by exact Hst. reflexivity.
    + intros m b. unfold fill_response, bind, get_entry. cbn [fst].
      destruct (decide _) as [Hst|Hst].
      * intros [= <- <-]. repeat split; apply Hst.
      * unfold try_catch.
        destruct (fill_body traced (e, res)) as [[e1 res1] [[]|x|]]; try discriminate.
        destruct (fill_handler x (e1, res1)) as [[e2 res2] o] eqn:Hh.
        cbn [snd]. intros ->.
        destruct (fill_handler_post x e1 res1 e2 res2 _ Hh) as (_ & _ & Hty).
        specialize (Hty _ _ _ eq_refl). discriminate.
  - intros evs. split.
    + intros [ptr Hin]. unfold noreply_wait. rewrite (self_eqb qc p Hself).
      fold tok. rewrite Hin. reflexivity.
    + intros m b. unfold noreply_wait. rewrite (self_eqb qc p Hself). fold tok.
      destruct (queries qc !! tok) as [ptr|] eqn:Hq.
      * intros [= <- <-]. split; [eauto | split; reflexivity].
      * destruct (run_until_satisfied _ qc evs) as [qc' []]; discriminate.
Qed.

(** ** Interruption *)

Section Interruption.
Context `{Collaborators}.

(** Bare pulses leave the state alone and pulse the interruptor. *)
Lemma apply_pulses (acts : list agent_action) (e : entry_t) :
  Forall (eq act_pulse_persistent) acts ->
  state (apply_actions acts e) = state e /\
  (acts <> [] -> persistent_interruptor (apply_actions acts e) = true) /\
  (persistent_interruptor e = true ->
   persistent_interruptor (apply_actions acts e) = true).
Proof.
  intros Hall. revert e. induction Hall as [|a acts <- _ IH]; intros e.
  - repeat split; [congruence | auto].
  - cbn [apply_actions fold_left apply_action].
    destruct (IH (with_persistent_interruptor true e)) as (Hs & _ & Hp).
    fold (apply_actions acts (with_persistent_interruptor true e)).
    rewrite Hs. repeat split; intros; apply Hp; reflexivity.
Qed.

Lemma apply_actions_pulsed (acts : list agent_action) (e : entry_t) :
  persistent_interruptor e = true ->
  persistent_interruptor (apply_actions acts e) = true.
Proof.
  revert e. induction acts as [|a acts IH]; intros e He; [exact He|].
  cbn [apply_actions fold_left]. apply IH. destruct a; reflexivity.
Qed.

(** After a [terminate_internal] a streaming entry is DONE and pulsed,
    whatever else the others do. *)
Lemma apply_terminate (acts : list agent_action) (e : entry_t) :
  In act_terminate_internal acts ->
  state e = state_t.STREAM \/ state e = state_t.DONE ->
  state (apply_actions acts e) = state_t.DONE /\
  persistent_interruptor (apply_actions acts e) = true.
Proof.
  revert e. induction acts as [|a acts IH]; intros e Hin He; [destruct Hin|].
  cbn [apply_actions fold_left].
  fold (apply_actions acts (apply_action e a)).
  destruct Hin as [-> | Hin].
  - cbn [apply_action]. split.
    + apply apply_actions_DONE. rewrite terminate_internal_state.
      destruct He as [-> | ->]; reflexivity.
    + apply apply_actions_pulsed. reflexivity.
  - apply IH; [exact Hin|]. destruct a; cbn [apply_action].
    + right. rewrite terminate_internal_state. destruct He as [-> | ->]; reflexivity.
    + exact He.
Qed.

(** [fill_response] on a streaming entry whose next batch is interrupted. *)
Lemma fill_response_interrupted_batch (tok : Z) (traced : bool) (e : entry_t)
    (res : response_t) (s : datum_stream_t) :
  state e = state_t.STREAM ->
  stream e = Some s ->
  result (next_batch s (batch_type_of e)) = inl interrupted_exc_t ->
  fill_response tok traced (e, res) =
  fill_handler interrupted_exc_t
    (apply_actions (concurrent (next_batch s (batch_type_of e))) e, res).
Proof.
  intros Hst Hs Hb. unfold fill_response, bind at 1, get_entry. cbn [fst].
  rewrite decide_False by (intros [_ Hc]; congruence).
  unfold try_catch. rewrite fill_body_not_START by congruence.
  rewrite decide_True by exact Hst.
  unfold serve_and_profile, bind. rewrite (serve_throws e res s _ Hs Hb).
  reflexivity.
Qed.

End Interruption.

(** Claim C4, as amended.  While a streaming entry is being served, let the
    evaluation be interrupted.  If the other agents have only pulsed the
    persistent interruptor of the entry, without [terminate_internal], the
    [fill_response] raises the RUNTIME_ERROR "Query terminated by the
    `rethinkdb.jobs` table." with the empty backtrace.  If one of them has
    invoked [terminate_internal], the entry has been marked DONE and the
    [fill_response] returns a cleared response of type SUCCESS_SEQUENCE. *)
Theorem jobs_table_kill `{Collaborators} (tok : Z) (traced : bool) (e : entry_t)
    (res : response_t) (s : datum_stream_t) (acts : list agent_action) :
  state e = state_t.STREAM ->
  stream e = Some s ->
  next_batch s (batch_type_of e) = Suspension acts (inl interrupted_exc_t) ->
  (acts <> [] -> Forall (eq act_pulse_persistent) acts ->
   fill_response tok traced (e, res) =
   ((apply_actions acts e, res),
    Throw (bt_exc_t RUNTIME_ERROR "Query terminated by the `rethinkdb.jobs` table."
                    EMPTY_BACKTRACE))) /\
  (In act_terminate_internal acts ->
   fill_response tok traced (e, res) =
   ((apply_actions acts e, set_type SUCCESS_SEQUENCE empty_response), Normal tt)).
Proof.
  intros Hst Hs Hb.
  assert (Hr : result (next_batch s (batch_type_of e)) = inl interrupted_exc_t)
    by (rewrite Hb; reflexivity).
  rewrite (fill_response_interrupted_batch tok traced e res s Hst Hs Hr).
  rewrite Hb. cbn [concurrent]. split.
  - intros Hne Hall. destruct (apply_pulses acts e Hall) as (Hstate & Hp & _).
    unfold fill_handler. unfold_M. rewrite (Hp Hne).
    rewrite decide_True by (rewrite Hstate; congruence). reflexivity.
  - intros Hin. destruct (apply_terminate acts e Hin (or_introl Hst)) as (Hstate & Hp).
    unfold fill_handler. unfold_M. rewrite Hp.
    rewrite decide_False by (rewrite Hstate; auto). reflexivity.
Qed.

(** Claim C5.  Let the evaluation inside a [fill_response] raise
    [interrupted_exc_t].  If by then the persistent interruptor of the entry
    is pulsed and the state is DONE (a client STOP), the response is cleared,
    its type is SUCCESS_SEQUENCE and [fill_response] returns normally.  If the
    persistent interruptor is not pulsed (the external interruptor has
    fired), [terminate_internal] is applied to the entry and the
    [interrupted_exc_t] propagates. *)
Theorem interrupted_fill_response `{Collaborators} (tok : Z) (traced : bool)
    (e e1 : entry_t) (res res1 : response_t) :
  state e = state_t.START \/ state e = state_t.STREAM ->
  fill_body traced (e, res) = ((e1, res1), Throw interrupted_exc_t) ->
  (persistent_interruptor e1 = true -> state e1 = state_t.DONE ->
   exists res',
     fill_response tok traced (e, res) = ((e1, res'), Normal tt) /\
     type res' = Some SUCCESS_SEQUENCE /\
     data res' = [] /\ notes res' = [] /\ profile_datum res' = None) /\
  (persistent_interruptor e1 = false ->
   fill_response tok traced (e, res) =
   ((terminate_internal e1, res1), Throw (uncaught interrupted_exc_t))).
Proof.
  intros Hst Hbody.
  assert (Hf : fill_response tok traced (e, res) =
               fill_handler interrupted_exc_t (e1, res1)).
  { unfold fill_response, bind at 1, get_entry. cbn [fst].
    rewrite decide_False by (intros [H1 H2]; destruct Hst; contradiction).
    unfold try_catch. rewrite Hbody. reflexivity. }
  rewrite Hf. unfold fill_handler. unfold_M. split.
  - intros Hp Hd. rewrite Hp. rewrite decide_False by (rewrite Hd; auto).
    eexists. split; [reflexivity|]. repeat split.
  - intros Hp. rewrite Hp. reflexivity.
Qed.

(** ** Destruction of a handle *)

(** Claim C6.  The destructor of a handle guarantees that the entry is not
    in state START, and no [fill_response] leaves an entry in START.  On an
    entry in state DONE, whose token the map links to it, the destructor
    moves the entry to DELETING, takes the pair of the token and the entry
    out of the map and schedules the disposal of the entry; the entry stays
    allocated until the disposal runs, which finds the token unlinked already;
    a later [get] of the token fails.  On an entry in state STREAM or
    DELETING the destructor changes nothing. *)
Theorem ref_destruction `{Collaborators} (r : ref_t.t) (qc : query_cache_t)
    (e : entry_t) :
  heap qc !! ref_t.entry r = Some e ->
  (forall tok traced e0 res,
     state (fill_response tok traced (e0, res)).1.1 <> state_t.START) /\
  (state e = state_t.START -> ref_dtor r qc = (qc, Abort)) /\
  (state e = state_t.DONE ->
   queries qc !! ref_t.token r = Some (ref_t.entry r) ->
   exists qc',
     ref_dtor r qc = (qc', Normal tt) /\
     heap qc' !! ref_t.entry r = Some (with_state state_t.DELETING e) /\
     queries qc' = delete (ref_t.token r) (queries qc) /\
     spawned qc' = spawned qc ++ [ref_t.entry r] /\
     heap (async_destroy_entry (ref_t.entry r) qc') !! ref_t.entry r = None /\
     queries (async_destroy_entry (ref_t.entry r) qc') = queries qc' /\
     forall p interrupted,
       self qc' = query_params_t.query_cache p ->
       query_params_t.token p = ref_t.token r ->
       snd (get qc' p interrupted) =
       Throw (bt_exc_t CLIENT_ERROR
                ("Token " +:+ pretty (ref_t.token r) +:+ " not in stream cache.")
                EMPTY_BACKTRACE)) /\
  (state e = state_t.STREAM \/ state e = state_t.DELETING ->
   ref_dtor r qc = (qc, Normal tt)).
Proof.
  intros Hheap. split; [|split; [|split]].
  - intros tok traced e0 res.
    destruct (fill_response tok traced (e0, res)) as [[e' res'] o] eqn:Hf.
    destruct (fill_response_post tok traced e0 res e' res' o Hf) as (P1 & P2 & _).
    cbn [fst]. destruct (decide (state e0 = state_t.START)); auto.
  - intros Hst. unfold ref_dtor. rewrite Hheap.
    rewrite decide_True by exact Hst. reflexivity.
  - intros Hst Hq. unfold ref_dtor. rewrite Hheap.
    rewrite decide_False by congruence. rewrite decide_True by exact Hst.
    cbn [queries with_heap]. rewrite Hq.
    eexists. split; [reflexivity|].
    cbn [heap queries spawned self with_queries with_spawned with_heap].
    split; [apply lookup_insert_eq|]. split; [reflexivity|]. split; [reflexivity|].
    split; [apply lookup_delete_eq|]. split; [reflexivity|].
    intros p interrupted Hself Htok.
    rewrite get_absent.
    + rewrite Htok. reflexivity.
    + exact Hself.
    + cbn [queries with_queries]. rewrite Htok. apply lookup_delete_eq.
  - intros Hst. unfold ref_dtor. rewrite Hheap.
    rewrite decide_False by (destruct Hst; congruence).
    rewrite decide_False by (destruct Hst; congruence). reflexivity.
Qed.

(** ** Release of the query id *)

Section Tracker.
Context `{Collaborators}.

Lemma release_query_id_idem (v : N) (qc : query_cache_t) :
  release_query_id v (release_query_id v qc) = release_query_id v qc.
Proof.
  unfold release_query_id at 2 3. destruct (decide _) as [Hin|Hout].
  - unfold release_query_id. cbn [outstanding_query_ids with_tracker].
    rewrite decide_False; [reflexivity|].
    rewrite list_elem_of_filter. tauto.
  - unfold release_query_id. rewrite decide_False by exact Hout. reflexivity.
Qed.

Lemma release_query_id_gone (v : N) (qc : query_cache_t) :
  v ∉ outstanding_query_ids (release_query_id v qc).
Proof.
  unfold release_query_id. destruct (decide _) as [Hin|Hout]; [|exact Hout].
  cbn [outstanding_query_ids with_tracker]. rewrite list_elem_of_filter. tauto.
Qed.

Lemma maybe_release_query_id_idem (p : query_params_t.t) (qc : query_cache_t) :
  maybe_release_query_id p (maybe_release_query_id p qc) =
  maybe_release_query_id p qc.
Proof.
  unfold maybe_release_query_id. destruct (query_params_t.noreply p);
    [reflexivity | apply release_query_id_idem].
Qed.

Lemma maybe_release_query_id_gone (p : query_params_t.t) (qc : query_cache_t) :
  query_params_t.noreply p = false ->
  query_params_t.id p ∉ outstanding_query_ids (maybe_release_query_id p qc).
Proof.
  unfold maybe_release_query_id. intros ->. apply release_query_id_gone.
Qed.

Lemma maybe_release_query_id_kept (p : query_params_t.t) (qc : query_cache_t) :
  query_params_t.noreply p = true -> maybe_release_query_id p qc = qc.
Proof. unfold maybe_release_query_id. by intros ->. Qed.

End Tracker.

(** Claim C7, as amended.  [create] and [get] hand the params to
    [maybe_release_query_id] as their first action: they do what they would
    do on the cache on which that call has been made already, and however
    they end the tracker is the one that call leaves.  For params that are
    not noreply the id is then not outstanding; for noreply params the id is
    kept and the tracker is the one the operation found.  [terminate_query]
    and [noreply_wait] make no such call: [terminate_query] leaves the
    tracker as it is, and so does a [noreply_wait] that nobody else
    disturbs. *)
Theorem release_before_lookup `{Collaborators} (qc : query_cache_t)
    (p : query_params_t.t) :
  self qc = query_params_t.query_cache p ->
  (forall uuid now interrupted,
     create qc p uuid now interrupted =
     create (maybe_release_query_id p qc) p uuid now interrupted /\
     tracker_of (create qc p uuid now interrupted).1 =
     tracker_of (maybe_release_query_id p qc) /\
     (query_params_t.noreply p = false ->
      query_params_t.id p
        ∉ outstanding_query_ids (create qc p uuid now interrupted).1) /\
     (query_params_t.noreply p = true ->
      tracker_of (create qc p uuid now interrupted).1 = tracker_of qc)) /\
  (forall interrupted,
     get qc p interrupted = get (maybe_release_query_id p qc) p interrupted /\
     tracker_of (get qc p interrupted).1 = tracker_of (maybe_release_query_id p qc) /\
     (query_params_t.noreply p = false ->
      query_params_t.id p ∉ outstanding_query_ids (get qc p interrupted).1) /\
     (query_params_t.noreply p = true ->
      tracker_of (get qc p interrupted).1 = tracker_of qc)) /\
  tracker_of (terminate_query qc p).1 = tracker_of qc /\
  tracker_of (noreply_wait qc p []).1 = tracker_of qc.
Proof.
  intros Hself.
  assert (Hself' : self (maybe_release_query_id p qc) = query_params_t.query_cache p).
  { destruct (maybe_release_query_id_frame p qc) as (-> & _).
    exact Hself. }
  assert (Hidem : maybe_release_query_id p (maybe_release_query_id p qc) =
                  maybe_release_query_id p qc)
    by apply maybe_release_query_id_idem.
  assert (Hq : queries (maybe_release_query_id p qc) = queries qc)
    by apply maybe_release_query_id_frame.
  assert (Hh : heap (maybe_release_query_id p qc) = heap qc)
    by apply maybe_release_query_id_frame.
  pose proof (maybe_release_query_id_gone p qc) as Hgone.
  pose proof (maybe_release_query_id_kept p qc) as Hkept.
  assert (Hcreate : forall uuid now interrupted,
             tracker_of (create (maybe_release_query_id p qc) p uuid now interrupted).1 =
             tracker_of (maybe_release_query_id p qc)).
  { intros uuid now interrupted.
    destruct (queries qc !! query_params_t.token p) as [ptr|] eqn:Hin.
    - rewrite (create_duplicate _ p uuid now interrupted Hself')
        by (rewrite Hq, Hin; eauto).
      rewrite Hidem. reflexivity.
    - rewrite (create_fresh _ p uuid now interrupted Hself')
        by (rewrite Hq; exact Hin).
      cbv zeta. rewrite Hidem.
      destruct (compile_query p) as [reg [[|w bt|w|w]|[[ts go] root]]];
        try reflexivity.
      destruct interrupted; reflexivity. }
  assert (Hget : forall interrupted,
             tracker_of (get (maybe_release_query_id p qc) p interrupted).1 =
             tracker_of (maybe_release_query_id p qc)).
  { intros interrupted.
    destruct (queries qc !! query_params_t.token p) as [ptr|] eqn:Hin.
    - rewrite (get_present _ p interrupted ptr Hself') by (rewrite Hq; exact Hin).
      rewrite Hidem. reflexivity.
    - rewrite (get_absent _ p interrupted Hself') by (rewrite Hq; exact Hin).
      rewrite Hidem. reflexivity. }
  assert (Hcreate_eq : forall uuid now interrupted,
             create qc p uuid now interrupted =
             create (maybe_release_query_id p qc) p uuid now interrupted).
  { intros uuid now interrupted.
    destruct (queries qc !! query_params_t.token p) as [ptr|] eqn:Hin.
    - rewrite (create_duplicate qc p uuid now interrupted Hself) by eauto.
      rewrite (create_duplicate _ p uuid now interrupted Hself')
        by (rewrite Hq, Hin; eauto).
      rewrite Hidem. reflexivity.
    - rewrite (create_fresh qc p uuid now interrupted Hself Hin).
      rewrite (create_fresh _ p uuid now interrupted Hself')
        by (rewrite Hq; exact Hin).
      cbv zeta. rewrite Hidem, Hq, Hh. reflexivity. }
  assert (Hget_eq : forall interrupted,
             get qc p interrupted = get (maybe_release_query_id p qc) p interrupted).
  { intros interrupted.
    destruct (queries qc !! query_params_t.token p) as [ptr|] eqn:Hin.
    - rewrite (get_present qc p interrupted ptr Hself Hin).
      rewrite (get_present _ p interrupted ptr Hself') by (rewrite Hq; exact Hin).
      rewrite Hidem, Hh. reflexivity.
    - rewrite (get_absent qc p interrupted Hself Hin).
      rewrite (get_absent _ p interrupted Hself') by (rewrite Hq; exact Hin).
      rewrite Hidem. reflexivity. }
  assert (Hout : forall qc', tracker_of qc' = tracker_of (maybe_release_query_id p qc) ->
             outstanding_query_ids qc' =
             outstanding_query_ids (maybe_release_query_id p qc)).
  { intros qc' Heq. unfold tracker_of in Heq. congruence. }
  split; [|split; [|split]].
  - intros uuid now interrupted.
    split; [apply Hcreate_eq|]. rewrite Hcreate_eq.
    split; [apply Hcreate|]. split.
    + intros Hn. rewrite (Hout _ (Hcreate uuid now interrupted)). by apply Hgone.
    + intros Hn. rewrite Hcreate, Hkept by exact Hn. reflexivity.
  - intros interrupted.
    split; [apply Hget_eq|]. rewrite Hget_eq.
    split; [apply Hget|]. split.
    + intros Hn. rewrite (Hout _ (Hget interrupted)). by apply Hgone.
    + intros Hn. rewrite Hget, Hkept by exact Hn. reflexivity.
  - unfold terminate_query. rewrite (self_eqb qc p Hself).
    destruct (queries qc !! query_params_t.token p); reflexivity.
  - unfold noreply_wait. rewrite (self_eqb qc p Hself).
    destruct (queries qc !! query_params_t.token p); [reflexivity|].
    cbn [run_until_satisfied]. destruct (_ =? _)%N; reflexivity.
Qed.

(** ** The root term *)

(** Claim C8, as amended.  No reachable entry in state STREAM has a root
    term.  After a [fill_response] on an entry in state START whose [run]
    has returned, the root term has been cleared. *)
Theorem root_term_cleared `{Collaborators} (e : entry_t) :
  reachable e ->
  (state e = state_t.STREAM -> root_term e = None) /\
  (forall tok traced res,
     state e = state_t.START ->
     (exists s1, run (e, res) = (s1, Normal tt)) ->
     root_term (fill_response tok traced (e, res)).1.1 = None).
Proof.
  intros Hreach. split.
  - induction Hreach as [p reg ts go root uuid now | e a _ IH
                        | e tok traced res _ IH | e _ IH Hd].
    + discriminate.
    + destruct (apply_action_frame a e) as (-> & _).
      intros Hs. apply IH. destruct a; cbn [apply_action] in Hs.
      * rewrite terminate_internal_state in Hs.
        destruct (state e); congruence.
      * exact Hs.
    + destruct (fill_response tok traced (e, res)) as [[e' res'] o] eqn:Hf.
      destruct (fill_response_post tok traced e res e' res' o Hf)
        as (P1 & P2 & P3 & P4).
      cbn [fst]. intros Hs.
      destruct (decide (state e = state_t.START)) as [Hst|Hst]; [auto|].
      destruct (decide (state e = state_t.STREAM)) as [Hstr|Hstr].
      * destruct P3 as [-> | P3]; auto.
      * exfalso. revert Hf. unfold fill_response, bind, get_entry. cbn [fst].
        rewrite decide_True by auto. intros [= <- _ _]. contradiction.
    + discriminate.
  - intros tok traced res Hst Hrun.
    rewrite (fill_response_START tok traced e res Hst). unfold try_catch.
    destruct (fill_body traced (e, res)) as [[e1 res1] o1] eqn:Hbody.
    destruct (fill_body_post traced e res e1 res1 o1 Hbody) as (_ & _ & B3 & _).
    assert (H1 : root_term e1 = None) by (apply B3; auto).
    destruct o1 as [[]|x|]; cbn [fst]; try exact H1.
    destruct (fill_handler x (e1, res1)) as [[e2 res2] o2] eqn:Hh.
    destruct (fill_handler_post x e1 res1 e2 res2 o2 Hh) as (K1 & _).
    cbn [fst]. congruence.
Qed.

(** ** The barrier *)

Section Barrier.
Context `{Collaborators}.

Lemma foldr_min_le (v : N) (vs : list N) :
  (foldr N.min v vs <= v)%N /\ Forall (λ w, (foldr N.min v vs <= w)%N) vs.
Proof.
  induction vs as [|w vs [IH1 IH2]]; cbn [foldr].
  - split; [lia | constructor].
  - split; [lia|]. constructor; [lia|].
    eapply Forall_impl; [exact IH2|]. cbv beta. intros; lia.
Qed.

Lemma foldr_min_in (v : N) (vs : list N) : foldr N.min v vs ∈ v :: vs.
Proof.
  induction vs as [|w vs IH]; cbn [foldr]; [left|].
  destruct (N.min_spec w (foldr N.min v vs)) as [[_ ->] | [_ ->]].
  - right. left.
  - apply elem_of_cons in IH. destruct IH as [-> | IH].
    + left.
    + right. right. exact IH.
Qed.

(** The oldest outstanding id is at most every outstanding id. *)
Lemma oldest_of_le (next : N) (out : list N) :
  Forall (λ w, (oldest_of next out <= w)%N) out.
Proof.
  destruct out as [|v vs]; [constructor|]. cbn [oldest_of].
  destruct (foldr_min_le v vs). constructor; assumption.
Qed.

Lemma oldest_of_in (next : N) (out : list N) :
  out <> [] -> oldest_of next out ∈ out.
Proof.
  destruct out as [|v vs]; [congruence|]. intros _. apply foldr_min_in.
Qed.

Lemma tracker_inv_new (this : N) : tracker_inv (new_query_cache this).
Proof. split; [reflexivity | constructor]. Qed.

Lemma tracker_inv_issue (qc : query_cache_t) :
  tracker_inv qc -> tracker_inv (issue_query_id qc).2.
Proof.
  intros [_ Hall]. split; [reflexivity|].
  cbn [issue_query_id snd next_query_id outstanding_query_ids with_tracker].
  apply Forall_app. split.
  - eapply Forall_impl; [exact Hall|]. cbv beta. intros; lia.
  - constructor; [lia | constructor].
Qed.

Lemma tracker_inv_release (v : N) (qc : query_cache_t) :
  tracker_inv qc -> tracker_inv (release_query_id v qc).
Proof.
  intros [Ho Hall]. unfold release_query_id.
  destruct (decide _); [|split; assumption].
  split; [reflexivity|].
  cbn [next_query_id outstanding_query_ids with_tracker].
  apply Forall_forall. intros w Hw. apply list_elem_of_filter in Hw.
  rewrite Forall_forall in Hall. apply Hall. tauto.
Qed.

(** A wait keeps the invariant, and ends satisfied only with the predicate
    true of the oldest outstanding id. *)
Lemma run_until_satisfied_post (pred : N -> bool) (evs : list tracker_event) :
  forall qc qc' r,
    tracker_inv qc ->
    run_until_satisfied pred qc evs = (qc', r) ->
    tracker_inv qc' /\
    (r = Satisfied -> pred (oldest_outstanding_query_id qc') = true).
Proof.
  induction evs as [|ev evs IH]; intros qc qc' r Hinv; cbn [run_until_satisfied];
    destruct (pred (oldest_outstanding_query_id qc)) eqn:Hp.
  - intros [= <- <-]. auto.
  - intros [= <- <-]. split; [assumption | discriminate].
  - intros [= <- <-]. auto.
  - destruct ev as [|v|].
    + apply IH. apply tracker_inv_issue. exact Hinv.
    + apply IH. apply tracker_inv_release. exact Hinv.
    + intros [= <- <-]. split; [assumption | discriminate].
Qed.

End Barrier.

(** Claim C9.  On a cache whose tracker is in order, for a token that is not
    in the map, [noreply_wait] returns normally only with the oldest
    outstanding id equal to the id of the caller; by then every id smaller
    than that of the caller has been issued and is not outstanding any more.
    It returns at once when the oldest outstanding id is the id of the caller
    already, and stays blocked when it is not and nothing happens. *)
Theorem noreply_wait_barrier `{Collaborators} (qc qc' : query_cache_t)
    (p : query_params_t.t) (evs : list tracker_event) :
  self qc = query_params_t.query_cache p ->
  tracker_inv qc ->
  queries qc !! query_params_t.token p = None ->
  (noreply_wait qc p evs = (qc', Some (Normal tt)) ->
   oldest_outstanding_query_id qc' = query_params_t.id p /\
   forall v, (v < query_params_t.id p)%N ->
     (v ∉ outstanding_query_ids qc') /\ (v < next_query_id qc')%N) /\
  (oldest_outstanding_query_id qc = query_params_t.id p ->
   noreply_wait qc p evs = (qc, Some (Normal tt))) /\
  (oldest_outstanding_query_id qc <> query_params_t.id p ->
   noreply_wait qc p [] = (qc, None)).
Proof.
  intros Hself Hinv Hout. unfold noreply_wait.
  rewrite (self_eqb qc p Hself), Hout. split; [|split].
  - destruct (run_until_satisfied _ qc evs) as [qc1 r] eqn:Hrun.
    destruct (run_until_satisfied_post _ evs qc qc1 r Hinv Hrun) as [[Ho Hall] Hsat].
    destruct r; try discriminate. intros [= <-].
    specialize (Hsat eq_refl). apply N.eqb_eq in Hsat. split; [exact Hsat|].
    intros v Hv. rewrite <- Hsat, Ho in Hv.
    pose proof (oldest_of_le (next_query_id qc1) (outstanding_query_ids qc1)) as Hle.
    rewrite Forall_forall in Hle, Hall. split.
    + intros Hin. specialize (Hle v Hin). lia.
    + destruct (outstanding_query_ids qc1) as [|w ws] eqn:Hout1.
      * exact Hv.
      * assert (Hin : oldest_of (next_query_id qc1) (w :: ws) ∈ w :: ws)
          by (apply oldest_of_in; discriminate).
        specialize (Hall _ Hin). lia.
  - intros Ho. destruct evs as [|ev evs]; cbn [run_until_satisfied];
      rewrite Ho, N.eqb_refl; reflexivity.
  - intros Ho. cbn [run_until_satisfied].
    apply N.eqb_neq in Ho. rewrite Ho. reflexivity.
Qed.

(** ** Failure of [create] *)

(** Claim C10.  A [create] that does not return a handle leaves the token map
    and the entries as they were: this covers the duplicate-token error, a
    COMPILE_ERROR and an interrupted handle constructor.  After a
    COMPILE_ERROR the token is still absent from the map, and a later
    [create] with the same token raises no client error.  A [create] that
    returns a handle has compiled the query and constructed the handle, on
    a token that was absent, and then inserted the token with the entry. *)
Theorem create_failure_keeps_map `{Collaborators} (qc qc' : query_cache_t)
    (p : query_params_t.t) (uuid now : N) (interrupted : bool)
    (o : outcome exception ref_t.t) :
  self qc = query_params_t.query_cache p ->
  create qc p uuid now interrupted = (qc', o) ->
  let tok := query_params_t.token p in
  ((forall r, o <> Normal r) -> queries qc' = queries qc /\ heap qc' = heap qc) /\
  (forall m b, o = Throw (bt_exc_t COMPILE_ERROR m b) ->
     queries qc' !! tok = None /\
     forall p2 uuid2 now2 interrupted2 m2 b2,
       self qc' = query_params_t.query_cache p2 ->
       query_params_t.token p2 = tok ->
       snd (create qc' p2 uuid2 now2 interrupted2) <>
       Throw (bt_exc_t CLIENT_ERROR m2 b2)) /\
  (forall r, o = Normal r ->
     queries qc !! tok = None /\
     interrupted = false /\
     exists reg ts go root,
       compile_query p = (reg, inr (ts, go, root)) /\
       new_ref (new_entry p reg ts go root uuid now) tok (ref_t.entry r) interrupted
       = Normal r /\
       queries qc' = <[tok := ref_t.entry r]> (queries qc) /\
       heap qc' !! ref_t.entry r = Some (new_entry p reg ts go root uuid now) /\
       heap qc !! ref_t.entry r = None).
Proof.
  intros Hself Hcreate tok.
  assert (Hq : queries (maybe_release_query_id p qc) = queries qc)
    by apply maybe_release_query_id_frame.
  assert (Hh : heap (maybe_release_query_id p qc) = heap qc)
    by apply maybe_release_query_id_frame.
  assert (Hs : self (maybe_release_query_id p qc) = self qc)
    by apply maybe_release_query_id_frame.
  destruct (queries qc !! tok) as [ptr|] eqn:Hin.
  { rewrite (create_duplicate qc p uuid now interrupted Hself) in Hcreate
      by (fold tok; rewrite Hin; eauto).
    injection Hcreate as <- <-. repeat split; auto; discriminate. }
  rewrite (create_fresh qc p uuid now interrupted Hself Hin) in Hcreate.
  cbv zeta in Hcreate.
  assert (Hlater : forall m b,
    (qc', o) = (maybe_release_query_id p qc, Throw (bt_exc_t COMPILE_ERROR m b)) ->
    queries qc' !! tok = None /\
    forall p2 uuid2 now2 interrupted2 m2 b2,
      self qc' = query_params_t.query_cache p2 ->
      query_params_t.token p2 = tok ->
      snd (create qc' p2 uuid2 now2 interrupted2) <>
      Throw (bt_exc_t CLIENT_ERROR m2 b2)).
  { intros m b [= -> _]. rewrite Hq. split; [exact Hin|].
    intros p2 uuid2 now2 interrupted2 m2 b2 Hself2 Htok2 Hc.
    destruct (create_client_error _ p2 uuid2 now2 interrupted2 m2 b2 Hself2 Hc)
      as ([ptr Hptr] & _).
    rewrite Htok2, Hq in Hptr. unfold tok in *. congruence. }
  destruct (compile_query p) as [reg [[|w bt|w|w]|[[ts go] root]]].
  - injection Hcreate as <- <-. repeat split; auto; discriminate.
  - split; [|split].
    + injection Hcreate as <- <-. auto.
    + intros m b ->. eapply Hlater. symmetry. exact Hcreate.
    + injection Hcreate as <- <-. discriminate.
  - split; [|split].
    + injection Hcreate as <- <-. auto.
    + intros m b ->. eapply Hlater. symmetry. exact Hcreate.
    + injection Hcreate as <- <-. discriminate.
  - injection Hcreate as <- <-. repeat split; auto; discriminate.
  - destruct interrupted.
    + injection Hcreate as <- <-. repeat split; auto; discriminate.
    + injection Hcreate as <- <-. split; [|split].
      * intros Hn. exfalso. eapply Hn. reflexivity.
      * discriminate.
      * intros r [= <-]. split; [reflexivity|]. split; [reflexivity|].
        exists reg, ts, go, root. cbn [ref_t.entry queries heap with_queries with_heap].
        split; [reflexivity|]. split; [reflexivity|]. split; [reflexivity|].
        split; [apply lookup_insert_eq|].
        apply not_elem_of_dom. apply is_fresh.
Qed.

(** * Further properties *)

(** ** Termination of an entry *)

(** X1.  [terminate_internal] is idempotent; it leaves no entry in START or
    STREAM, always leaves the persistent interruptor pulsed, and does not
    move an entry that is DONE or DELETING. *)
Theorem terminate_internal_idempotent `{Collaborators} (e : entry_t) :
  terminate_internal (terminate_internal e) = terminate_internal e /\
  state (terminate_internal e) <> state_t.START /\
  state (terminate_internal e) <> state_t.STREAM /\
  persistent_interruptor (terminate_internal e) = true /\
  (state e = state_t.DONE \/ state e = state_t.DELETING ->
   state (terminate_internal e) = state e).
Proof.
  destruct e as [[] ? ? ? ? ? ? ? ? ? ? ?]; cbn;
    repeat split; try discriminate; intros [Hc | Hc]; discriminate.
Qed.

(** ** The shape of what the handle operations return *)

Section Shapes.
Context `{Collaborators}.

Ltac keep_done := repeat apply apply_actions_DONE; assumption.

Lemma apply_actions_has_sent_batch (acts : list agent_action) (e : entry_t) :
  has_sent_batch (apply_actions acts e) = has_sent_batch e.
Proof. apply apply_actions_frame. Qed.

Lemma apply_actions_stream (acts : list agent_action) (e : entry_t) :
  stream (apply_actions acts e) = stream e.
Proof. apply apply_actions_frame. Qed.

(** A [run] that returns has answered with one datum and left the entry
    DONE, or has left the response alone and made the entry a stream. *)
Lemma run_normal_shape (e e1 : entry_t) (res res1 : response_t) :
  run (e, res) = ((e1, res1), Normal tt) ->
  (state e1 = state_t.DONE /\
   exists d, res1 = set_data [d] (set_type SUCCESS_ATOM res)) \/
  (state e1 = state_t.STREAM /\ res1 = res /\
   has_sent_batch e1 = false /\ is_Some (stream e1)).
Proof.
  unfold run. unfold_M. cbn [root_term with_state].
  destruct (root_term e) as [root|]; [|discriminate].
  assert (H0 : state (with_state state_t.DONE e) = state_t.DONE) by reflexivity.
  revert H0. generalize (with_state state_t.DONE e). intros e0 H0.
  destruct (eval root) as [a1 [x|val]]; cbn [concurrent result]; [discriminate|].
  destruct (is_convertible_DATUM val).
  { destruct (as_datum val) as [a2 [x|d]]; cbn [concurrent result];
      [discriminate|]. intros [= <- <-]. left.
    split; [keep_done | eexists; reflexivity]. }
  destruct (maybe_as_promiscuous_grouped_data val) as [a2 [x|[g|]]];
    cbn [concurrent result]; [discriminate| |].
  { destruct (to_datum_for_client_serialization g) as [a3 [x|d]];
      cbn [concurrent result]; [discriminate|]. intros [= <- <-]. left.
    split; [keep_done | eexists; reflexivity]. }
  destruct (is_convertible_SEQUENCE val); [|discriminate].
  destruct (as_seq val) as [a3 [x|seq]]; cbn [concurrent result]; [discriminate|].
  destruct (as_array seq) as [a4 [x|[a|]]]; cbn [concurrent result];
    [discriminate| |]; intros [= <- <-].
  - left. split; [keep_done | eexists; reflexivity].
  - right. cbn. repeat split. eauto.
Qed.

(** [run] fails no guarantee on an entry that has its root term. *)
Lemma run_no_abort (e : entry_t) (res : response_t) :
  is_Some (root_term e) -> snd (run (e, res)) <> Abort.
Proof.
  intros [root Hroot]. unfold run. unfold_M. cbn [root_term with_state].
  rewrite Hroot.
  destruct (eval root) as [a1 [x|val]]; cbn [concurrent result]; [discriminate|].
  destruct (is_convertible_DATUM val).
  { destruct (as_datum val) as [a2 [x|d]]; discriminate. }
  destruct (maybe_as_promiscuous_grouped_data val) as [a2 [x|[g|]]];
    cbn [concurrent result]; [discriminate| |].
  { destruct (to_datum_for_client_serialization g) as [a3 [x|d]]; discriminate. }
  destruct (is_convertible_SEQUENCE val); [|discriminate].
  destruct (as_seq val) as [a3 [x|seq]]; cbn [concurrent result]; [discriminate|].
  destruct (as_array seq) as [a4 [x|[a|]]]; discriminate.
Qed.

(** A [serve] that returns has got a batch and classified it. *)
Lemma serve_normal_shape (e e' : entry_t) (res res' : response_t) :
  serve (e, res) = ((e', res'), Normal tt) ->
  exists s s' ds T,
    stream e = Some s /\
    result (next_batch s (batch_type_of e)) = inr (ds, s') /\
    (T = SUCCESS_SEQUENCE \/ T = SUCCESS_PARTIAL) /\
    res' = annotate s' (set_type T (set_data ds res)) /\
    has_sent_batch e' = true /\ stream e' = Some s'.
Proof.
  destruct (stream e) as [s|] eqn:Hs.
  2:{ unfold serve. unfold_M. rewrite Hs. discriminate. }
  destruct (result (next_batch s (batch_type_of e))) as [x|[ds s']] eqn:Hb.
  - rewrite (serve_throws e res s x Hs Hb). discriminate.
  - rewrite (serve_batch e res s s' ds Hs Hb).
    destruct (is_exhausted s' || noreply e);
      [destruct (decide _); [|discriminate]|]; intros [= <- <-].
    + exists s, s', ds, SUCCESS_SEQUENCE. repeat split; auto.
    + exists s, s', ds, SUCCESS_PARTIAL. repeat split; auto.
Qed.

(** [serve] keeps a stream it has. *)
Lemma serve_keeps_stream (e : entry_t) (res : response_t) :
  is_Some (stream e) -> is_Some (stream (serve (e, res)).1.1).
Proof.
  intros [s Hs].
  destruct (result (next_batch s (batch_type_of e))) as [x|[ds s']] eqn:Hb.
  - rewrite (serve_throws e res s x Hs Hb). cbn [fst].
    rewrite apply_actions_stream, Hs. eauto.
  - rewrite (serve_batch e res s s' ds Hs Hb).
    destruct (is_exhausted s' || noreply e); [destruct (decide _)|];
      cbn; eauto.
Qed.

Lemma annotate_profile (s : datum_stream_t) (r : response_t) :
  profile_datum (annotate s r) = profile_datum r.
Proof.
  unfold annotate. destruct (cfeed_type s); try reflexivity.
  destruct (length (data r) =? 0)%nat; reflexivity.
Qed.

Lemma attach_profile_profile (traced : bool) (r : response_t) :
  profile_datum (attach_profile traced r) =
  if traced then Some trace_as_datum else profile_datum r.
Proof. destruct traced; reflexivity. Qed.

(** The [try] block when it returns. *)
Lemma fill_body_normal_shape (traced : bool) (e e' : entry_t)
    (res res' : response_t) :
  state e = state_t.START \/ state e = state_t.STREAM ->
  fill_body traced (e, res) = ((e', res'), Normal tt) ->
  (state e = state_t.START /\ state e' = state_t.DONE /\
   exists d, res' = attach_profile traced (set_data [d] (set_type SUCCESS_ATOM res))) \/
  (exists s' ds T,
     (T = SUCCESS_SEQUENCE \/ T = SUCCESS_PARTIAL) /\
     res' = attach_profile traced (annotate s' (set_type T (set_data ds res))) /\
     has_sent_batch e' = true /\ stream e' = Some s').
Proof.
  assert (Hsp : forall e0 r0,
    serve_and_profile traced (e0, r0) = ((e', res'), Normal tt) ->
    exists s' ds T,
      (T = SUCCESS_SEQUENCE \/ T = SUCCESS_PARTIAL) /\
      res' = attach_profile traced (annotate s' (set_type T (set_data ds r0))) /\
      has_sent_batch e' = true /\ stream e' = Some s').
  { intros e0 r0. unfold serve_and_profile, bind.
    destruct (serve (e0, r0)) as [[e1 r1] [[]|x|]] eqn:Hserve; try discriminate.
    destruct (serve_normal_shape e0 e1 r0 r1 Hserve)
      as (s & s' & ds & T & _ & _ & HT & -> & Hh & Hs).
    destruct traced; intros [= <- <-]; exists s', ds, T; repeat split; auto. }
  intros [Hst|Hst].
  - rewrite (fill_body_START traced e res Hst).
    destruct (run (e, res)) as [[e1 res1] [[]|x|]] eqn:Hrun; try discriminate.
    destruct (run_normal_shape e e1 res res1 Hrun)
      as [(Hd & d & ->) | (Hs & -> & _)].
    + rewrite decide_False by congruence. intros [= <- <-]. left.
      repeat split; eauto.
    + rewrite decide_True by exact Hs. intros Hb. right. eapply Hsp. exact Hb.
  - rewrite fill_body_not_START by congruence.
    rewrite decide_True by exact Hst. intros Hb. right. eapply Hsp. exact Hb.
Qed.

(** After the [try] block an entry that was START or STREAM is STREAM or
    DONE. *)
Lemma fill_body_state (traced : bool) (e e' : entry_t) (res res' : response_t)
    (o : outcome eval_exc unit) :
  state e = state_t.START \/ state e = state_t.STREAM ->
  fill_body traced (e, res) = ((e', res'), o) ->
  state e' = state_t.STREAM \/ state e' = state_t.DONE.
Proof.
  intros Hst Hbody.
  destruct (fill_body_post traced e res e' res' o Hbody) as (B1 & _ & _ & B4).
  destruct Hst as [Hst|Hst].
  - revert Hbody. rewrite (fill_body_START traced e res Hst).
    destruct (run (e, res)) as [[e1 res1] o1] eqn:Hrun.
    destruct (run_post e res e1 res1 o1 Hrun) as [_ Hs].
    destruct o1 as [[]|x|].
    + destruct (decide (state e1 = state_t.STREAM)) as [He1|He1].
      * intros Hsp. apply serve_and_profile_post in Hsp.
        cbn [state with_root_term] in Hsp. destruct Hsp as [_ [-> | ->]]; auto.
      * intros [= <- _]. cbn [state with_root_term].
        destruct Hs as [Hs | (Hs & _)]; auto.
    + intros [= <- _]. destruct Hs as [Hs | (Hs & _)]; auto.
    + intros [= <- _]. destruct Hs as [Hs | (Hs & _)]; auto.
  - destruct B4 as [-> | ->]; [congruence | auto | auto].
Qed.

(** How the state moves through a [fill_response]. *)
Lemma fill_response_state (tok : Z) (traced : bool) (e e' : entry_t)
    (res res' : response_t) (o : outcome exception unit) :
  fill_response tok traced (e, res) = ((e', res'), o) ->
  (state e = state_t.START \/ state e = state_t.STREAM ->
   state e' = state_t.STREAM \/ state e' = state_t.DONE) /\
  (state e <> state_t.START ->
   state e' = state e \/ (state e = state_t.STREAM /\ state e' = state_t.DONE)).
Proof.
  unfold fill_response, bind, get_entry. cbn [fst].
  destruct (decide _) as [[H1 H2]|Hn].
  { intros [= <- _ _]. split; [intros [|]; contradiction | auto]. }
  assert (Hst : state e = state_t.START \/ state e = state_t.STREAM).
  { destruct (state e); auto; exfalso; apply Hn; split; discriminate. }
  unfold try_catch.
  destruct (fill_body traced (e, res)) as [[e1 res1] o1] eqn:Hbody.
  pose proof (fill_body_state traced e e1 res res1 o1 Hst Hbody) as Hs1.
  destruct (fill_body_post traced e res e1 res1 o1 Hbody) as (_ & _ & _ & B4).
  assert (Hfin : state e' = state e1 \/ state e' = state_t.DONE ->
    (state e = state_t.START \/ state e = state_t.STREAM ->
     state e' = state_t.STREAM \/ state e' = state_t.DONE) /\
    (state e <> state_t.START ->
     state e' = state e \/ (state e = state_t.STREAM /\ state e' = state_t.DONE))).
  { intros Hk. split.
    - intros _. destruct Hk as [-> | ->]; auto.
    - intros Hne. destruct Hst as [Hst|Hst]; [contradiction|].
      destruct (B4 Hne) as [Hb | Hb]; destruct Hk as [Hk | Hk];
        rewrite ?Hk, ?Hb; auto. }
  destruct o1 as [[]|x|].
  - intros [= <- _ _]. apply Hfin. auto.
  - intros Hh. destruct (fill_handler_post x e1 res1 e' res' o Hh) as (_ & K2 & _).
    apply Hfin. exact K2.
  - intros [= <- _ _]. apply Hfin. auto.
Qed.

End Shapes.

(** X5.  The state an entry has when a [fill_response] ends, however it
    ends, is never earlier in the order START, STREAM, DONE, DELETING than
    the state it had when the [fill_response] began, and what other agents do
    to an entry never moves it to an earlier state.  A [fill_response] on an
    entry that is DONE or DELETING leaves the entry and the response
    untouched.  The first part compares the two ends of a call only: in
    between, [run] holds the entry DONE while the term is evaluated and makes
    it STREAM afterwards when the value is a stream. *)
Theorem state_order_between_calls `{Collaborators} (tok : Z) (traced : bool)
    (e : entry_t) (res : response_t) :
  (state_rank (state e)
   <= state_rank (state (fill_response tok traced (e, res)).1.1))%nat /\
  (forall acts,
     (state_rank (state e) <= state_rank (state (apply_actions acts e)))%nat) /\
  (state e = state_t.DONE \/ state e = state_t.DELETING ->
   (fill_response tok traced (e, res)).1 = (e, res)).
Proof.
  split; [|split].
  - destruct (fill_response tok traced (e, res)) as [[e' res'] o] eqn:Hf.
    destruct (fill_response_state tok traced e e' res res' o Hf) as [F1 F2].
    cbn [fst]. destruct (state e) eqn:Hs.
    + destruct F1 as [-> | ->]; auto; cbn; lia.
    + destruct F1 as [-> | ->]; auto; cbn; lia.
    + destruct F2 as [-> | [Hc _]]; [discriminate | lia | discriminate].
    + destruct F2 as [-> | [Hc _]]; [discriminate | lia | discriminate].
  - intros acts. destruct (apply_actions_state acts e) as [Ha | Ha];
      [rewrite Ha; lia|].
    destruct (state e) eqn:Hs; rewrite Ha; cbn; try lia.
    exfalso. pose proof (apply_actions_settled acts e (or_intror Hs)) as Hk.
    congruence.
  - intros Hs. unfold fill_response, bind, get_entry. cbn [fst].
    rewrite decide_True by (destruct Hs as [-> | ->]; split; discriminate).
    reflexivity.
Qed.

(** X9.  A [fill_response] on an entry in START or STREAM that ends with an
    exception leaves the persistent interruptor pulsed.  The entry is DONE,
    unless the exception is the runtime error of the jobs table, which leaves
    it STREAM.  The exception is a RUNTIME_ERROR or the [interrupted_exc_t]
    itself. *)
Theorem failed_fill_response_terminates `{Collaborators} (tok : Z) (traced : bool)
    (e e' : entry_t) (res res' : response_t) (x : exception) :
  state e = state_t.START \/ state e = state_t.STREAM ->
  fill_response tok traced (e, res) = ((e', res'), Throw x) ->
  persistent_interruptor e' = true /\
  (state e' = state_t.DONE \/
   (state e' = state_t.STREAM /\
    x = bt_exc_t RUNTIME_ERROR "Query terminated by the `rethinkdb.jobs` table."
                 EMPTY_BACKTRACE)) /\
  (x = uncaught interrupted_exc_t \/
   exists m b, x = bt_exc_t RUNTIME_ERROR m b).
Proof.
  intros Hst. unfold fill_response, bind, get_entry. cbn [fst].
  rewrite decide_False by (intros [H1 H2]; destruct Hst; contradiction).
  unfold try_catch.
  destruct (fill_body traced (e, res)) as [[e1 res1] o1] eqn:Hbody.
  pose proof (fill_body_state traced e e1 res res1 o1 Hst Hbody) as Hs1.
  destruct o1 as [[]|y|]; try discriminate.
  assert (Ht : state (terminate_internal e1) = state_t.DONE).
  { rewrite terminate_internal_state. destruct Hs1 as [-> | ->]; reflexivity. }
  unfold fill_handler. unfold_M. destruct y as [|w b|w|w].
  - destruct (persistent_interruptor e1) eqn:Hp.
    + destruct (decide _) as [Hd|Hd]; [|discriminate].
      intros [= <- _ <-]. split; [exact Hp|]. split; [|eauto].
      right. destruct Hs1; [auto | contradiction].
    + intros [= <- _ <-]. repeat split; auto.
  - intros [= <- _ <-]. repeat split; eauto.
  - intros [= <- _ <-]. repeat split; eauto.
  - intros [= <- _ <-]. repeat split; eauto.
Qed.

(** X10.  A [fill_response] on an entry in START or STREAM that returns
    normally has set a success type.  SUCCESS_ATOM comes only from an entry
    that was START, with exactly one datum and the entry DONE; SUCCESS_PARTIAL
    comes only with a batch sent and a stream in the entry; and an entry left
    in STREAM has sent a batch, so that the next batch is asked with kind
    NORMAL. *)
Theorem successful_fill_response `{Collaborators} (tok : Z) (traced : bool)
    (e e' : entry_t) (res res' : response_t) :
  state e = state_t.START \/ state e = state_t.STREAM ->
  fill_response tok traced (e, res) = ((e', res'), Normal tt) ->
  (type res' = Some SUCCESS_ATOM \/ type res' = Some SUCCESS_SEQUENCE \/
   type res' = Some SUCCESS_PARTIAL) /\
  (type res' = Some SUCCESS_ATOM ->
   state e = state_t.START /\ state e' = state_t.DONE /\
   exists d, data res' = [d]) /\
  (type res' = Some SUCCESS_PARTIAL ->
   has_sent_batch e' = true /\ is_Some (stream e')) /\
  (state e' = state_t.STREAM ->
   has_sent_batch e' = true /\ batch_type_of e' = batch_type_t.NORMAL).
Proof.
  intros Hst. unfold fill_response, bind, get_entry. cbn [fst].
  rewrite decide_False by (intros [H1 H2]; destruct Hst; contradiction).
  unfold try_catch.
  destruct (fill_body traced (e, res)) as [[e1 res1] o1] eqn:Hbody.
  destruct o1 as [[]|y|]; try discriminate.
  - intros [= <- <-].
    destruct (fill_body_normal_shape traced e e1 res res1 Hst Hbody)
      as [(H1 & H2 & d & ->) | (s' & ds & T & HT & -> & Hh & Hs)].
    + destruct (attach_profile_type_data traced
                  (set_data [d] (set_type SUCCESS_ATOM res))) as [-> ->].
      cbn [type data set_data set_type].
      split; [auto|]. split; [eauto|]. split; [discriminate|]. congruence.
    + destruct (attach_profile_type_data traced
                  (annotate s' (set_type T (set_data ds res)))) as [-> _].
      rewrite annotate_type. cbn [type data set_data set_type].
      unfold batch_type_of. rewrite Hh, Hs.
      assert (Hty : match cfeed_type s' with
                    | feed_type_t.not_feed =>
                      if (length ds =? 0)%nat then Some SUCCESS_SEQUENCE else Some T
                    | _ => Some T
                    end = Some SUCCESS_SEQUENCE \/
                    match cfeed_type s' with
                    | feed_type_t.not_feed =>
                      if (length ds =? 0)%nat then Some SUCCESS_SEQUENCE else Some T
                    | _ => Some T
                    end = Some SUCCESS_PARTIAL).
      { destruct (cfeed_type s'); try destruct (length ds =? 0)%nat;
          destruct HT as [-> | ->]; auto. }
      split; [tauto|]. split; [|split; [eauto | auto]].
      intros Hc. exfalso. destruct Hty as [Hty | Hty]; congruence.
  - unfold fill_handler. unfold_M. destruct y as [|w b|w|w]; try discriminate.
    destruct (persistent_interruptor e1); [|discriminate].
    destruct (decide _) as [Hd|Hd]; [discriminate|].
    intros [= <- <-]. cbn [type set_type].
    split; [auto|]. split; [discriminate|]. split; [discriminate|].
    intros Hs. exfalso. apply Hd. congruence.
Qed.

(** X11.  The response of a [fill_response] that returns normally carries
    the profile of the trace when the handle has one, and the profile it came
    with when the handle has none; the one exception is the cleared response
    that acknowledges a stop, which carries the type and nothing else. *)
Theorem profile_of_response `{Collaborators} (tok : Z) (traced : bool)
    (e e' : entry_t) (res res' : response_t) :
  state e = state_t.START \/ state e = state_t.STREAM ->
  fill_response tok traced (e, res) = ((e', res'), Normal tt) ->
  profile_datum res' = (if traced then Some trace_as_datum else profile_datum res) \/
  (res' = set_type SUCCESS_SEQUENCE empty_response /\
   persistent_interruptor e' = true /\ state e' = state_t.DONE).
Proof.
  intros Hst. unfold fill_response, bind, get_entry. cbn [fst].
  rewrite decide_False by (intros [H1 H2]; destruct Hst; contradiction).
  unfold try_catch.
  destruct (fill_body traced (e, res)) as [[e1 res1] o1] eqn:Hbody.
  destruct o1 as [[]|y|]; try discriminate.
  - intros [= <- <-]. left.
    destruct (fill_body_normal_shape traced e e1 res res1 Hst Hbody)
      as [(_ & _ & d & ->) | (s' & ds & T & _ & -> & _)];
      rewrite attach_profile_profile; [reflexivity|].
    rewrite annotate_profile. reflexivity.
  - unfold fill_handler. unfold_M. destruct y as [|w b|w|w]; try discriminate.
    destruct (persistent_interruptor e1) eqn:Hp; [|discriminate].
    destruct (decide _) as [Hd|Hd]; [discriminate|].
    intros [= <- <-]. right. repeat split; [exact Hp|].
    destruct (state e1); try reflexivity; exfalso; apply Hd; discriminate.
Qed.

(** ** What a reachable entry holds *)

Section ReachableEntries.
Context `{Collaborators}.

Lemma serve_and_profile_keeps_stream (traced : bool) (e : entry_t)
    (res : response_t) :
  is_Some (stream e) -> is_Some (stream (serve_and_profile traced (e, res)).1.1).
Proof.
  intros Hs. pose proof (serve_keeps_stream e res Hs) as Hk.
  unfold serve_and_profile, bind.
  destruct (serve (e, res)) as [[e1 r1] [[]|x|]]; [destruct traced|..]; exact Hk.
Qed.

(** An entry left in STREAM by the [try] block has a stream. *)
Lemma fill_body_stream (traced : bool) (e e' : entry_t) (res res' : response_t)
    (o : outcome eval_exc unit) :
  (state e = state_t.STREAM -> is_Some (stream e)) ->
  fill_body traced (e, res) = ((e', res'), o) ->
  state e' = state_t.STREAM -> is_Some (stream e').
Proof.
  intros Hinv. destruct (decide (state e = state_t.START)) as [Hst|Hst].
  - rewrite (fill_body_START traced e res Hst).
    destruct (run (e, res)) as [[e1 res1] o1] eqn:Hrun.
    destruct (run_post e res e1 res1 o1 Hrun) as [_ Hs].
    destruct o1 as [[]|x|].
    + destruct (decide (state e1 = state_t.STREAM)) as [He1|He1].
      * destruct Hs as [Hs | (_ & _ & Hs)]; [congruence|].
        intros Hsp _.
        pose proof (serve_and_profile_keeps_stream traced
                      (with_root_term None e1) res1 Hs) as Hk.
        rewrite Hsp in Hk. exact Hk.
      * intros [= <- _ _]. cbn [state with_root_term]. contradiction.
    + intros [= <- _ _] Hc. destruct Hs as [Hs | (_ & Hs & _)]; congruence.
    + intros [= <- _ _] Hc. destruct Hs as [Hs | (_ & Hs & _)]; congruence.
  - rewrite (fill_body_not_START traced e res Hst).
    destruct (decide (state e = state_t.STREAM)) as [He|He].
    + intros Hsp _.
      pose proof (serve_and_profile_keeps_stream traced e res (Hinv He)) as Hk.
      rewrite Hsp in Hk. exact Hk.
    + intros [= <- _ _]. contradiction.
Qed.

Lemma fill_handler_stream (x : eval_exc) (e e' : entry_t)
    (res res' : response_t) (o : outcome exception unit) :
  fill_handler x (e, res) = ((e', res'), o) -> stream e' = stream e.
Proof.
  destruct (terminate_internal_frame e) as (_ & Hs & _).
  unfold fill_handler. unfold_M. destruct x as [|w b|w|w].
  - destruct (persistent_interruptor e); [destruct (decide _)|];
      intros [= <- _ _]; auto.
  - intros [= <- _ _]; auto.
  - intros [= <- _ _]; auto.
  - intros [= <- _ _]; auto.
Qed.

Lemma fill_response_stream (tok : Z) (traced : bool) (e e' : entry_t)
    (res res' : response_t) (o : outcome exception unit) :
  (state e = state_t.STREAM -> is_Some (stream e)) ->
  fill_response tok traced (e, res) = ((e', res'), o) ->
  state e' = state_t.STREAM -> is_Some (stream e').
Proof.
  intros Hinv. unfold fill_response, bind, get_entry. cbn [fst].
  destruct (decide _) as [[H1 H2]|Hn].
  { intros [= <- _ _] Hs. contradiction. }
  unfold try_catch.
  destruct (fill_body traced (e, res)) as [[e1 res1] o1] eqn:Hbody.
  pose proof (fill_body_stream traced e e1 res res1 o1 Hinv Hbody) as Hs1.
  destruct o1 as [[]|x|].
  - intros [= <- _ _]. exact Hs1.
  - intros Hh Hs.
    destruct (fill_handler_post x e1 res1 e' res' o Hh) as (_ & K2 & _).
    rewrite (fill_handler_stream x e1 e' res1 res' o Hh).
    apply Hs1. destruct K2 as [<- | K2]; [exact Hs | congruence].
  - intros [= <- _ _]. exact Hs1.
Qed.

(** The invariants of the entries a cache can hold. *)
Lemma reachable_inv (e : entry_t) :
  reachable e ->
  (state e = state_t.START ->
   has_sent_batch e = false /\ stream e = None /\ is_Some (root_term e)) /\
  (state e = state_t.STREAM -> is_Some (stream e)).
Proof.
  induction 1 as [p reg ts go root uuid now | e a _ [IH1 IH2]
                 | e tok traced res _ [IH1 IH2] | e _ _ Hd].
  - split; [|discriminate]. intros _. cbn. eauto.
  - destruct (apply_action_frame a e) as (-> & -> & -> & _).
    assert (Hs : state (apply_action e a) = state_t.START \/
                 state (apply_action e a) = state_t.STREAM ->
                 state (apply_action e a) = state e).
    { destruct a; cbn [apply_action]; [|reflexivity].
      rewrite terminate_internal_state. destruct (state e); intros [|]; congruence. }
    split; intros Hk; [apply IH1 | apply IH2]; rewrite <- Hs; auto.
  - destruct (fill_response tok traced (e, res)) as [[e' res'] o] eqn:Hf.
    destruct (fill_response_post tok traced e res e' res' o Hf) as (P1 & P2 & _).
    cbn [fst]. split.
    + intros Hs. exfalso.
      destruct (decide (state e = state_t.START)) as [Hst|Hst].
      * apply P2; auto.
      * apply P1; auto.
    + apply (fill_response_stream tok traced e e' res res' o IH2 Hf).
  - split; discriminate.
Qed.

(** Without [terminate_internal] the others leave the state alone. *)
Lemma apply_actions_unstopped (acts : list agent_action) (e : entry_t) :
  ~ In act_terminate_internal acts -> state (apply_actions acts e) = state e.
Proof.
  intros Hn. apply apply_pulses. apply Forall_forall. intros a Ha.
  destruct a; [|reflexivity]. exfalso. apply Hn.
  apply list_elem_of_In. exact Ha.
Qed.

(** [serve] fails a guarantee exactly when the batch arrives as the last
    one of an entry that has been stopped meanwhile. *)
Lemma serve_abort_iff (e : entry_t) (res : response_t) (s s' : datum_stream_t)
    (acts : list agent_action) (ds : list datum_t) :
  state e = state_t.STREAM ->
  stream e = Some s ->
  next_batch s (batch_type_of e) = Suspension acts (inr (ds, s')) ->
  (snd (serve (e, res)) = Abort <->
   In act_terminate_internal acts /\
   (is_exhausted s' = true \/ noreply e = true)).
Proof.
  intros Hst Hs Hb.
  assert (Hr : result (next_batch s (batch_type_of e)) = inr (ds, s'))
    by (rewrite Hb; reflexivity).
  rewrite (serve_batch e res s s' ds Hs Hr). rewrite Hb. cbn [concurrent].
  cbn [state with_has_sent_batch with_stream].
  destruct (is_exhausted s' || noreply e) eqn:Hfin.
  - apply orb_true_iff in Hfin.
    destruct (decide (state (apply_actions acts e) = state_t.STREAM)) as [Hk|Hk].
    + cbn [snd]. split; [discriminate|]. intros [Hin _]. exfalso.
      destruct (apply_terminate acts e Hin (or_introl Hst)) as [Hd _]. congruence.
    + cbn [snd]. split; [|reflexivity]. intros _. split; [|exact Hfin].
      destruct (In_dec (fun a b : agent_action =>
                  ltac:(decide equality) : {a = b} + {a <> b})
                  act_terminate_internal acts) as [Hin|Hout]; [exact Hin|].
      exfalso. apply Hk. rewrite apply_actions_unstopped by exact Hout. exact Hst.
  - apply orb_false_iff in Hfin. destruct Hfin as [Hex Hnr]. cbn [snd].
    split; [discriminate|]. intros [_ [Hc | Hc]]; congruence.
Qed.

End ReachableEntries.

(** X6.  Every entry a cache can hold has, while it is START, sent no batch,
    no stream and a root term; and while it is STREAM it has a stream. *)
Theorem reachable_entry_shape `{Collaborators} (e : entry_t) :
  reachable e ->
  (state e = state_t.START ->
   has_sent_batch e = false /\ stream e = None /\ is_Some (root_term e)) /\
  (state e = state_t.STREAM -> is_Some (stream e)).
Proof. apply reachable_inv. Qed.

(** X7.  On a streaming entry whose batch arrives, [fill_response] fails a
    guarantee and brings the process down exactly when another agent has
    invoked [terminate_internal] while the batch was produced and the batch
    is the last one: the stream is exhausted or the entry is noreply. *)
Theorem continue_aborts_iff_stopped `{Collaborators} (tok : Z) (traced : bool)
    (e : entry_t) (res : response_t) (s s' : datum_stream_t)
    (acts : list agent_action) (ds : list datum_t) :
  state e = state_t.STREAM ->
  stream e = Some s ->
  next_batch s (batch_type_of e) = Suspension acts (inr (ds, s')) ->
  (snd (fill_response tok traced (e, res)) = Abort <->
   In act_terminate_internal acts /\
   (is_exhausted s' = true \/ noreply e = true)).
Proof.
  intros Hst Hs Hb.
  rewrite <- (serve_abort_iff e res s s' acts ds Hst Hs Hb).
  unfold fill_response, bind at 1, get_entry. cbn [fst].
  rewrite decide_False by (intros [_ Hc]; congruence).
  unfold try_catch. rewrite fill_body_not_START by congruence.
  rewrite decide_True by exact Hst.
  unfold serve_and_profile, bind.
  destruct (serve (e, res)) as [[e1 r1] [[]|x|]] eqn:Hserve; cbn [snd].
  - destruct traced; cbn [snd]; split; discriminate.
  - split; [|discriminate].
    destruct (fill_handler x (e1, r1)) as [[e2 r2] o2] eqn:Hh. cbn [snd].
    intros ->. exfalso. revert Hh. unfold fill_handler. unfold_M.
    destruct x as [|w b|w|w];
      [destruct (persistent_interruptor e1); [destruct (decide _)|]|..];
      discriminate.
  - split; reflexivity.
Qed.

(** X8.  As long as no batch arrives from a stream whose entry has been
    stopped meanwhile, a [fill_response] on an entry a cache can hold fails no
    guarantee: the root term is there when [run] needs it, and the stream is
    there when [serve] needs it. *)
Theorem fill_response_keeps_guarantees `{Collaborators} (tok : Z) (traced : bool)
    (e : entry_t) (res : response_t) :
  reachable e ->
  (forall s k acts r,
     next_batch s k = Suspension acts (inr r) -> ~ In act_terminate_internal acts) ->
  snd (fill_response tok traced (e, res)) <> Abort.
Proof.
  intros Hreach Hquiet. destruct (reachable_inv e Hreach) as [I1 I2].
  assert (Hhandler : forall x s1, snd (fill_handler x s1) <> Abort).
  { intros x [e1 r1]. unfold fill_handler. unfold_M.
    destruct x as [|w b|w|w];
      [destruct (persistent_interruptor e1); [destruct (decide _)|]|..];
      discriminate. }
  assert (Hsp : forall e0 r0, state e0 = state_t.STREAM -> is_Some (stream e0) ->
            snd (try_catch (serve_and_profile traced) fill_handler (e0, r0)) <> Abort).
  { intros e0 r0 Hst [s Hs]. unfold try_catch, serve_and_profile, bind.
    destruct (next_batch s (batch_type_of e0)) as [acts [x|[ds s']]] eqn:Hb.
    - rewrite (serve_throws e0 r0 s x Hs) by (rewrite Hb; reflexivity).
      apply Hhandler.
    - pose proof (serve_abort_iff e0 r0 s s' acts ds Hst Hs Hb) as Hiff.
      destruct (serve (e0, r0)) as [[e1 r1] [[]|x|]]; cbn [snd] in *.
      + destruct traced; discriminate.
      + apply Hhandler.
      + exfalso. destruct (proj1 Hiff eq_refl) as [Hin _].
        exact (Hquiet _ _ _ _ Hb Hin). }
  unfold fill_response, bind at 1, get_entry. cbn [fst].
  destruct (decide _) as [_|Hn]; [discriminate|].
  destruct (decide (state e = state_t.START)) as [Hst|Hst].
  - unfold try_catch at 1. rewrite (fill_body_START traced e res Hst).
    pose proof (run_no_abort e res (proj2 (proj2 (I1 Hst)))) as Hrun.
    destruct (run (e, res)) as [[e1 res1] o1] eqn:Hr.
    destruct (run_post e res e1 res1 o1 Hr) as [_ Hs].
    destruct o1 as [[]|x|]; cbn [snd] in Hrun; [| apply Hhandler | congruence].
    destruct (decide (state e1 = state_t.STREAM)) as [He1|He1];
      [|discriminate].
    destruct Hs as [Hs | (_ & _ & Hs)]; [congruence|].
    apply (Hsp (with_root_term None e1) res1 He1 Hs).
  - assert (Hstr : state e = state_t.STREAM).
    { destruct (state e); try contradiction; auto;
        exfalso; apply Hn; split; discriminate. }
    pose proof (Hsp e res Hstr (I2 Hstr)) as Hk.
    unfold try_catch in *. rewrite fill_body_not_START by exact Hst.
    rewrite decide_True by exact Hstr. exact Hk.
Qed.

(** ** The cache as a whole *)

Section WholeCache.
Context `{Collaborators}.

Lemma terminate_internal_twice (e : entry_t) :
  terminate_internal (terminate_internal e) = terminate_internal e.
Proof. destruct e as [[] ? ? ? ? ? ? ? ? ? ? ?]; reflexivity. Qed.

Lemma terminate_internal_profile (e : entry_t) :
  profile (terminate_internal e) = profile e.
Proof. unfold terminate_internal. destruct (decide _); reflexivity. Qed.

(** [terminate_query], spelled out. *)
Lemma terminate_query_eq (qc : query_cache_t) (p : query_params_t.t) :
  self qc = query_params_t.query_cache p ->
  terminate_query qc p =
  (match queries qc !! query_params_t.token p with
   | Some ptr => with_heap (alter terminate_internal ptr (heap qc)) qc
   | None => qc
   end, Normal tt).
Proof.
  intros Hself. unfold terminate_query. rewrite (self_eqb qc p Hself).
  destruct (queries qc !! query_params_t.token p); reflexivity.
Qed.

(** A wait touches nothing but the tracker. *)
Lemma run_until_satisfied_frame (pred : N -> bool) (evs : list tracker_event) :
  forall qc,
    self (run_until_satisfied pred qc evs).1 = self qc /\
    queries (run_until_satisfied pred qc evs).1 = queries qc /\
    heap (run_until_satisfied pred qc evs).1 = heap qc /\
    spawned (run_until_satisfied pred qc evs).1 = spawned qc.
Proof.
  induction evs as [|ev evs IH]; intros qc; cbn [run_until_satisfied];
    destruct (pred (oldest_outstanding_query_id qc)); try (repeat split; fail).
  destruct ev as [|v|].
  - destruct (IH (issue_query_id qc).2) as (-> & -> & -> & ->). repeat split.
  - destruct (IH (release_query_id v qc)) as (-> & -> & -> & ->).
    destruct (release_query_id_frame v qc) as (-> & -> & -> & -> & _).
    repeat split.
  - repeat split.
Qed.

Lemma noreply_wait_frame (qc : query_cache_t) (p : query_params_t.t)
    (evs : list tracker_event) :
  self (noreply_wait qc p evs).1 = self qc /\
  queries (noreply_wait qc p evs).1 = queries qc /\
  heap (noreply_wait qc p evs).1 = heap qc /\
  spawned (noreply_wait qc p evs).1 = spawned qc.
Proof.
  unfold noreply_wait.
  destruct (negb _); [repeat split|].
  destruct (queries qc !! query_params_t.token p); [repeat split|].
  pose proof (run_until_satisfied_frame
                (λ v, (v =? query_params_t.id p)%N) evs qc) as Hf.
  destruct (run_until_satisfied _ qc evs) as [qc' []]; exact Hf.
Qed.

(** [ref_fill_response] changes the entry of the handle and nothing else. *)
Lemma ref_fill_response_frame (r : ref_t.t) (res : response_t)
    (qc : query_cache_t) :
  let qc' := (ref_fill_response r res qc).1.1 in
  self qc' = self qc /\ queries qc' = queries qc /\
  spawned qc' = spawned qc /\ tracker_of qc' = tracker_of qc /\
  (forall ptr, ptr <> ref_t.entry r -> heap qc' !! ptr = heap qc !! ptr) /\
  (forall e, heap qc !! ref_t.entry r = Some e ->
     heap qc' !! ref_t.entry r =
     Some (fill_response (ref_t.token r) (ref_t.trace r) (e, res)).1.1).
Proof.
  unfold ref_fill_response.
  destruct (heap qc !! ref_t.entry r) as [e|] eqn:He.
  - destruct (fill_response _ _ (e, res)) as [[e' res'] o] eqn:Hf.
    cbn [fst snd self queries spawned heap with_heap].
    repeat split.
    + intros ptr Hne. apply lookup_insert_ne. congruence.
    + intros e0 [= <-]. rewrite Hf. apply lookup_insert_eq.
  - cbn. repeat split. intros e0 Hc. discriminate.
Qed.

(** The new cache, [create] and [get] keep a cache well formed. *)
Lemma cache_wf_create (qc : query_cache_t) (p : query_params_t.t)
    (uuid now : N) (interrupted : bool) :
  cache_wf qc -> cache_wf (create qc p uuid now interrupted).1.
Proof.
  intros Hwf.
  assert (Hrel : cache_wf (maybe_release_query_id p qc)).
  { unfold cache_wf.
    destruct (maybe_release_query_id_frame p qc)
      as (_ & -> & -> & _). exact Hwf. }
  unfold create. destruct (negb _); [exact Hwf|].
  destruct (decide _); [exact Hrel|].
  destruct (compile_query p) as [reg [[|w bt|w|w]|[[ts go] root]]];
    try exact Hrel.
  unfold new_ref. destruct interrupted; [exact Hrel|].
  destruct (queries (maybe_release_query_id p qc) !! query_params_t.token p)
    eqn:Hq; [exact Hrel|].
  destruct Hrel as [W1 W2]. cbn [fst].
  set (qc1 := maybe_release_query_id p qc) in *.
  set (ptr := fresh (dom (heap qc1))).
  assert (Hfresh : heap qc1 !! ptr = None).
  { apply not_elem_of_dom. apply is_fresh. }
  split; cbn [queries heap with_queries with_heap].
  - intros tok ptr' Hl. apply lookup_insert_Some in Hl.
    destruct Hl as [[_ <-] | [_ Hl]].
    + eexists. rewrite lookup_insert_eq. split; [reflexivity | discriminate].
    + destruct (W1 _ _ Hl) as (e & He & Hs). exists e. split; [|exact Hs].
      rewrite lookup_insert_ne; [exact He | congruence].
  - intros t1 t2 ptr' H1 H2.
    apply lookup_insert_Some in H1. apply lookup_insert_Some in H2.
    destruct H1 as [[<- <-] | [N1 H1]]; destruct H2 as [[<- E2] | [N2 H2]].
    + reflexivity.
    + destruct (W1 _ _ H2) as (e & He & _). congruence.
    + destruct (W1 _ _ H1) as (e & He & _). congruence.
    + eapply W2; eassumption.
Qed.

(** A new cache is well formed. *)
Lemma cache_wf_new (this : N) : cache_wf (new_query_cache this).
Proof. split; cbn; intros; simplify_map_eq. Qed.

Lemma cache_wf_frame (qc qc' : query_cache_t) :
  queries qc' = queries qc -> heap qc' = heap qc -> cache_wf qc -> cache_wf qc'.
Proof. unfold cache_wf. intros -> ->. auto. Qed.

Lemma get_frame (qc : query_cache_t) (p : query_params_t.t) (interrupted : bool) :
  self (get qc p interrupted).1 = self qc /\
  queries (get qc p interrupted).1 = queries qc /\
  heap (get qc p interrupted).1 = heap qc /\
  spawned (get qc p interrupted).1 = spawned qc.
Proof.
  pose proof (maybe_release_query_id_frame p qc)
    as (R1 & R2 & R3 & R4 & _).
  unfold get. destruct (negb _); [repeat split|].
  destruct (queries _ !! _); [|repeat split; assumption].
  destruct (heap _ !! _); repeat split; assumption.
Qed.

(** The destructor of a handle that fits keeps a cache well formed. *)
Lemma cache_wf_ref_dtor (qc : query_cache_t) (r : ref_t.t) :
  cache_wf qc -> ref_ok qc r -> cache_wf (ref_dtor r qc).1.
Proof.
  intros [W1 W2] (e & He & Hlink). unfold ref_dtor. rewrite He.
  destruct (decide (state e = state_t.START)); [split; assumption|].
  destruct (decide (state e = state_t.DONE)) as [Hd|Hd]; [|split; assumption].
  cbn [queries with_heap].
  rewrite Hlink by congruence. cbn [fst].
  split; cbn [queries heap with_queries with_spawned with_heap].
  - intros tok ptr Hl. apply lookup_delete_Some in Hl. destruct Hl as [Hne Hl].
    destruct (W1 _ _ Hl) as (e0 & He0 & Hs0). exists e0. split; [|exact Hs0].
    rewrite lookup_insert_ne; [exact He0|].
    intros <-. apply Hne. eapply W2; [|exact Hl]. apply Hlink. congruence.
  - intros t1 t2 ptr H1 H2.
    apply lookup_delete_Some in H1. apply lookup_delete_Some in H2.
    eapply W2; [apply H1 | apply H2].
Qed.

(** No [fill_response] makes an entry DELETING. *)
Lemma fill_response_not_DELETING (tok : Z) (traced : bool) (e : entry_t)
    (res : response_t) :
  state e <> state_t.DELETING ->
  state (fill_response tok traced (e, res)).1.1 <> state_t.DELETING.
Proof.
  intros Hs.
  destruct (fill_response tok traced (e, res)) as [[e' res'] o] eqn:Hf.
  destruct (fill_response_state tok traced e e' res res' o Hf) as [F1 F2].
  cbn [fst]. destruct (decide (state e = state_t.START)) as [Hst|Hst].
  - destruct F1 as [-> | ->]; auto; discriminate.
  - destruct (F2 Hst) as [-> | [_ ->]]; [exact Hs | discriminate].
Qed.

End WholeCache.

(** X2.  [terminate_query] never fails: on an absent token it changes
    nothing, on a present one it applies [terminate_internal] to the entry of
    the token and touches neither the token map, nor the tracker, nor the
    scheduled disposals, nor any other entry.  A second [terminate_query]
    changes nothing any more. *)
Theorem terminate_query_idempotent `{Collaborators} (qc : query_cache_t)
    (p : query_params_t.t) :
  self qc = query_params_t.query_cache p ->
  exists qc',
    terminate_query qc p = (qc', Normal tt) /\
    terminate_query qc' p = (qc', Normal tt) /\
    self qc' = self qc /\ queries qc' = queries qc /\
    spawned qc' = spawned qc /\ tracker_of qc' = tracker_of qc /\
    (queries qc !! query_params_t.token p = None -> qc' = qc) /\
    (forall ptr, queries qc !! query_params_t.token p = Some ptr ->
       heap qc' !! ptr = terminate_internal <$> heap qc !! ptr) /\
    (forall ptr, queries qc !! query_params_t.token p <> Some ptr ->
       heap qc' !! ptr = heap qc !! ptr).
Proof.
  intros Hself. rewrite (terminate_query_eq qc p Hself).
  destruct (queries qc !! query_params_t.token p) as [ptr|] eqn:Hq.
  - eexists. split; [reflexivity|]. split.
    + rewrite terminate_query_eq by exact Hself.
      cbn [queries with_heap]. rewrite Hq. f_equal.
      unfold with_heap. cbn. f_equal.
      rewrite alter_alter_eq. apply alter_ext.
      intros e _. apply terminate_internal_twice.
    + cbn. repeat split; try discriminate.
      * intros ptr' [= <-]. apply lookup_alter_eq.
      * intros ptr' Hne. apply lookup_alter_ne. congruence.
  - exists qc. split; [reflexivity|]. split.
    + rewrite terminate_query_eq by exact Hself. rewrite Hq. reflexivity.
    + repeat split; auto; discriminate.
Qed.

(** X3.  A stop, then a continue.  After [terminate_query] on a token with
    a live entry, [get] still finds the entry; the [fill_response] of that
    handle raises the CLIENT_ERROR "duplicate token" and leaves the response
    alone; and the destructor of the handle takes the token out of the
    map. *)
Theorem stop_then_continue `{Collaborators} (qc : query_cache_t)
    (p p2 : query_params_t.t) (ptr : positive) (e : entry_t) (res : response_t) :
  self qc = query_params_t.query_cache p ->
  self qc = query_params_t.query_cache p2 ->
  query_params_t.token p2 = query_params_t.token p ->
  queries qc !! query_params_t.token p = Some ptr ->
  heap qc !! ptr = Some e ->
  state e <> state_t.DELETING ->
  let tok := query_params_t.token p in
  let r := ref_t.Make ptr tok (profile e) in
  exists qc1 qc2 qc3,
    terminate_query qc p = (qc1, Normal tt) /\
    get qc1 p2 false = (qc2, Normal r) /\
    ref_fill_response r res qc2 =
    (qc2, res,
     Throw (bt_exc_t CLIENT_ERROR ("ERROR: duplicate token " +:+ pretty tok)
                     EMPTY_BACKTRACE)) /\
    ref_dtor r qc2 = (qc3, Normal tt) /\
    queries qc3 !! tok = None /\
    heap qc3 !! ptr = Some (with_state state_t.DELETING (terminate_internal e)).
Proof.
  intros Hself Hself2 Htok Hq He Hs tok r.
  rewrite (terminate_query_eq qc p Hself), Hq.
  set (qc1 := with_heap (alter terminate_internal ptr (heap qc)) qc).
  assert (He1 : heap qc1 !! ptr = Some (terminate_internal e)).
  { cbn. rewrite lookup_alter_eq, He. reflexivity. }
  assert (Hd : state (terminate_internal e) = state_t.DONE).
  { rewrite terminate_internal_state. destruct (state e); congruence. }
  set (qc2 := maybe_release_query_id p2 qc1).
  assert (Hq2 : queries qc2 = queries qc).
  { unfold qc2.
    destruct (maybe_release_query_id_frame p2 qc1) as (_ & -> & _).
    reflexivity. }
  assert (Hh2 : heap qc2 = heap qc1).
  { unfold qc2.
    destruct (maybe_release_query_id_frame p2 qc1)
      as (_ & _ & -> & _).
    reflexivity. }
  exists qc1, qc2. eexists. split; [reflexivity|]. split; [|split; [|split]].
  - rewrite (get_present qc1 p2 false ptr) by (rewrite ?Htok; assumption).
    rewrite He1. unfold new_ref, r, tok.
    rewrite Htok, terminate_internal_profile. reflexivity.
  - unfold ref_fill_response. cbn [ref_t.entry r]. rewrite Hh2, He1.
    unfold fill_response, bind, get_entry. cbn [fst].
    rewrite decide_True by (rewrite Hd; split; discriminate).
    unfold throw. cbn [ref_t.token r].
    f_equal. f_equal.
    destruct qc2 as [a b c d f g h]. cbn in Hh2. subst c.
    unfold with_heap. cbn. f_equal. apply insert_id. exact He1.
  - unfold ref_dtor. cbn [ref_t.entry ref_t.token r]. rewrite Hh2, He1.
    rewrite decide_False by congruence. rewrite decide_True by exact Hd.
    cbn [queries with_heap]. rewrite Hq2. fold tok. unfold tok at 1. rewrite Hq.
    reflexivity.
  - cbn [queries heap with_queries with_spawned with_heap].
    split; [apply lookup_delete_eq | apply lookup_insert_eq].
Qed.

(** X4.  A START, then a continue or a second START.  After a [create] that
    returns a handle, the token leads to a fresh entry in state START, made
    from the params; a [get] on the token returns the same handle, and a
    second [create] on the token raises the CLIENT_ERROR "duplicate
    token". *)
Theorem create_then_get `{Collaborators} (qc qc' : query_cache_t)
    (p p2 : query_params_t.t) (uuid now : N) (r : ref_t.t) :
  self qc = query_params_t.query_cache p ->
  create qc p uuid now false = (qc', Normal r) ->
  self qc' = query_params_t.query_cache p2 ->
  query_params_t.token p2 = query_params_t.token p ->
  ref_t.token r = query_params_t.token p /\
  ref_t.trace r = query_params_t.profile p /\
  queries qc' !! query_params_t.token p = Some (ref_t.entry r) /\
  (exists e,
     heap qc' !! ref_t.entry r = Some e /\
     state e = state_t.START /\ has_sent_batch e = false /\ stream e = None /\
     persistent_interruptor e = false /\ is_Some (root_term e) /\
     noreply e = query_params_t.noreply p /\
     profile e = query_params_t.profile p /\ job_id e = uuid /\
     start_time e = now) /\
  get qc' p2 false = (maybe_release_query_id p2 qc', Normal r) /\
  (forall uuid2 now2 interrupted2,
     snd (create qc' p2 uuid2 now2 interrupted2) =
     Throw (bt_exc_t CLIENT_ERROR
              ("ERROR: duplicate token " +:+ pretty (query_params_t.token p))
              EMPTY_BACKTRACE)).
Proof.
  intros Hself Hcreate Hself2 Htok.
  destruct (queries qc !! query_params_t.token p) as [ptr|] eqn:Hq.
  { rewrite (create_duplicate qc p uuid now false Hself) in Hcreate
      by (rewrite Hq; eauto). discriminate. }
  rewrite (create_fresh qc p uuid now false Hself Hq) in Hcreate.
  cbv zeta in Hcreate.
  destruct (compile_query p) as [reg [[|w bt|w|w]|[[ts go] root]]];
    try discriminate.
  injection Hcreate as <- <-.
  cbn [ref_t.entry ref_t.token ref_t.trace queries heap with_queries with_heap].
  set (ptr := fresh (dom (heap qc))).
  set (qc' := with_queries _ _) in *.
  assert (Hl : queries qc' !! query_params_t.token p2 = Some ptr).
  { rewrite Htok. apply lookup_insert_eq. }
  split; [reflexivity|]. split; [reflexivity|].
  split; [apply lookup_insert_eq|]. split; [|split].
  - eexists. split; [apply lookup_insert_eq|]. cbn. repeat split. eauto.
  - rewrite (get_present qc' p2 false ptr Hself2 Hl).
    cbn [heap qc' with_queries with_heap]. rewrite lookup_insert_eq.
    unfold new_ref. cbn [profile new_entry]. rewrite Htok. reflexivity.
  - intros uuid2 now2 interrupted2.
    rewrite (create_duplicate qc' p2 uuid2 now2 interrupted2 Hself2)
      by (rewrite Hl; eauto).
    cbn [snd]. rewrite Htok. reflexivity.
Qed.

(** X12.  Well-formedness is an invariant of the cache: [create], [get],
    [terminate_query], [noreply_wait], the [fill_response] of a handle, the
    destructor of a handle that fits the cache, and the disposal of an entry
    that no token leads to, however they end, all leave a well-formed cache
    well formed. *)
Theorem cache_wf_invariant `{Collaborators} (qc : query_cache_t) :
  cache_wf qc ->
  (forall p uuid now interrupted, cache_wf (create qc p uuid now interrupted).1) /\
  (forall p interrupted, cache_wf (get qc p interrupted).1) /\
  (forall p, cache_wf (terminate_query qc p).1) /\
  (forall p evs, cache_wf (noreply_wait qc p evs).1) /\
  (forall r res, cache_wf (ref_fill_response r res qc).1.1) /\
  (forall r, ref_ok qc r -> cache_wf (ref_dtor r qc).1) /\
  (forall ptr, (forall tok, queries qc !! tok <> Some ptr) ->
     cache_wf (async_destroy_entry ptr qc)).
Proof.
  intros Hwf. split; [|split; [|split; [|split; [|split; [|split]]]]].
  - intros. apply cache_wf_create. exact Hwf.
  - intros p interrupted. destruct (get_frame qc p interrupted) as (_ & Hq & Hh & _).
    exact (cache_wf_frame qc _ Hq Hh Hwf).
  - intros p. unfold terminate_query. destruct (negb _); [exact Hwf|].
    destruct (queries qc !! query_params_t.token p) as [ptr|]; [|exact Hwf].
    destruct Hwf as [W1 W2]. split; cbn; [|exact W2].
    intros tok ptr' Hl. destruct (W1 _ _ Hl) as (e & He & Hs).
    destruct (decide (ptr = ptr')) as [<-|Hne].
    + exists (terminate_internal e). rewrite lookup_alter_eq, He.
      split; [reflexivity|]. rewrite terminate_internal_state.
      destruct (state e); congruence.
    + exists e. rewrite lookup_alter_ne by exact Hne. auto.
  - intros p evs. destruct (noreply_wait_frame qc p evs) as (_ & Hq & Hh & _).
    exact (cache_wf_frame qc _ Hq Hh Hwf).
  - intros r res.
    destruct (ref_fill_response_frame r res qc) as (_ & Hq & _ & _ & Hother & Hown).
    destruct Hwf as [W1 W2]. split; rewrite Hq; [|exact W2].
    intros tok ptr Hl. destruct (W1 _ _ Hl) as (e & He & Hs).
    destruct (decide (ptr = ref_t.entry r)) as [->|Hne].
    + eexists. split; [apply (Hown e He)|].
      apply fill_response_not_DELETING. exact Hs.
    + exists e. rewrite (Hother ptr Hne). auto.
  - intros r Hok. apply cache_wf_ref_dtor; assumption.
  - intros ptr Hfree. destruct Hwf as [W1 W2]. split; cbn; [|exact W2].
    intros tok ptr' Hl. destruct (W1 _ _ Hl) as (e & He & Hs).
    exists e. split; [|exact Hs]. rewrite lookup_delete_ne; [exact He|].
    intros <-. exact (Hfree tok Hl).
Qed.

(** X13.  On a well-formed cache, with params issued against it, [create],
    [get], [terminate_query] and [noreply_wait] fail no guarantee; the handle
    that [create] or [get] returns fits the cache they leave; and the
    destructor of a handle that fits fails no guarantee once the entry has
    left START. *)
Theorem well_formed_cache_keeps_guarantees `{Collaborators} (qc : query_cache_t)
    (p : query_params_t.t) :
  cache_wf qc ->
  self qc = query_params_t.query_cache p ->
  (forall uuid now interrupted,
     snd (create qc p uuid now interrupted) <> Abort /\
     forall qc' r, create qc p uuid now interrupted = (qc', Normal r) ->
       ref_ok qc' r) /\
  (forall interrupted,
     snd (get qc p interrupted) <> Abort /\
     forall qc' r, get qc p interrupted = (qc', Normal r) -> ref_ok qc' r) /\
  snd (terminate_query qc p) <> Abort /\
  (forall evs, snd (noreply_wait qc p evs) <> Some Abort) /\
  (forall r e, ref_ok qc r -> heap qc !! ref_t.entry r = Some e ->
     state e <> state_t.START -> snd (ref_dtor r qc) = Normal tt).
Proof.
  intros [W1 W2] Hself. split; [|split; [|split; [|split]]].
  - intros uuid now interrupted.
    destruct (queries qc !! query_params_t.token p) as [ptr|] eqn:Hq.
    + rewrite (create_duplicate qc p uuid now interrupted Hself)
        by (rewrite Hq; eauto).
      split; [discriminate|]. intros qc' r Hc. discriminate.
    + rewrite (create_fresh qc p uuid now interrupted Hself Hq). cbv zeta.
      destruct (compile_query p) as [reg [[|w bt|w|w]|[[ts go] root]]];
        try (split; [discriminate|]; intros qc' r Hc; discriminate).
      destruct interrupted;
        [split; [discriminate|]; intros qc' r Hc; discriminate|].
      split; [discriminate|]. intros qc' r [= <- <-].
      eexists. cbn. rewrite !lookup_insert_eq. split; [reflexivity|]. auto.
  - intros interrupted.
    destruct (queries qc !! query_params_t.token p) as [ptr|] eqn:Hq.
    + rewrite (get_present qc p interrupted ptr Hself Hq).
      destruct (W1 _ _ Hq) as (e & He & Hs). rewrite He. unfold new_ref.
      destruct interrupted; (split; [discriminate|]); intros qc' r.
      * discriminate.
      * intros [= <- <-]. exists e. cbn [ref_t.entry ref_t.token].
        destruct (maybe_release_query_id_frame p qc)
          as (_ & -> & -> & _). auto.
    + rewrite (get_absent qc p interrupted Hself Hq).
      split; [discriminate|]. intros qc' r Hc. discriminate.
  - rewrite (terminate_query_eq qc p Hself). discriminate.
  - intros evs. unfold noreply_wait. rewrite (self_eqb qc p Hself).
    destruct (queries qc !! query_params_t.token p); [discriminate|].
    destruct (run_until_satisfied _ qc evs) as [qc' []]; discriminate.
  - intros r e (e0 & He0 & Hlink) He Hs.
    assert (e0 = e) as -> by congruence.
    unfold ref_dtor. rewrite He. rewrite decide_False by exact Hs.
    destruct (decide (state e = state_t.DONE)) as [Hd|Hd]; [|reflexivity].
    cbn [queries with_heap]. rewrite Hlink by congruence. reflexivity.
Qed.

(** X14.  The operations keep to their token and their entry.  [create]
    leaves every other token and every entry that exists where they are;
    [get] and [noreply_wait] change neither the token map, nor the entries,
    nor the scheduled disposals; the [fill_response] of a handle changes
    neither the token map, nor the tracker, nor the scheduled disposals, nor
    any entry but its own; and the destructor of a handle leaves every other
    token, every other entry and the tracker alone. *)
Theorem operations_keep_to_their_token `{Collaborators} (qc : query_cache_t) :
  (forall p uuid now interrupted,
     let qc' := (create qc p uuid now interrupted).1 in
     (forall tok, tok <> query_params_t.token p ->
        queries qc' !! tok = queries qc !! tok) /\
     (forall ptr e, heap qc !! ptr = Some e -> heap qc' !! ptr = Some e) /\
     spawned qc' = spawned qc) /\
  (forall p interrupted,
     let qc' := (get qc p interrupted).1 in
     queries qc' = queries qc /\ heap qc' = heap qc /\ spawned qc' = spawned qc) /\
  (forall p evs,
     let qc' := (noreply_wait qc p evs).1 in
     queries qc' = queries qc /\ heap qc' = heap qc /\ spawned qc' = spawned qc) /\
  (forall r res,
     let qc' := (ref_fill_response r res qc).1.1 in
     queries qc' = queries qc /\ tracker_of qc' = tracker_of qc /\
     spawned qc' = spawned qc /\
     forall ptr, ptr <> ref_t.entry r -> heap qc' !! ptr = heap qc !! ptr) /\
  (forall r,
     let qc' := (ref_dtor r qc).1 in
     tracker_of qc' = tracker_of qc /\
     (forall tok, tok <> ref_t.token r -> queries qc' !! tok = queries qc !! tok) /\
     (forall ptr, ptr <> ref_t.entry r -> heap qc' !! ptr = heap qc !! ptr)).
Proof.
  split; [|split; [|split; [|split]]].
  - intros p uuid now interrupted qc'. subst qc'.
    pose proof (maybe_release_query_id_frame p qc)
      as (_ & Rq & Rh & Rs & _).
    unfold create. destruct (negb _); [auto|].
    fold (maybe_release_query_id p qc) in *.
    destruct (decide _); [cbn [fst]; rewrite Rq, Rh, Rs; auto|].
    destruct (compile_query p) as [reg [[|w bt|w|w]|[[ts go] root]]];
      try (cbn [fst]; rewrite Rq, Rh, Rs; auto; fail).
    unfold new_ref. destruct interrupted; [cbn [fst]; rewrite Rq, Rh, Rs; auto|].
    destruct (queries (maybe_release_query_id p qc) !! query_params_t.token p);
      [cbn [fst]; rewrite Rq, Rh, Rs; auto|].
    cbn [fst queries heap spawned with_queries with_heap]. rewrite Rq, Rh, Rs.
    split; [|split; [|reflexivity]].
    + intros tok Hne. apply lookup_insert_ne. congruence.
    + intros ptr e He. rewrite lookup_insert_ne; [exact He|].
      intros <-. pose proof (is_fresh (dom (heap qc))) as Hf.
      apply not_elem_of_dom in Hf. congruence.
  - intros p interrupted qc'. subst qc'.
    destruct (get_frame qc p interrupted) as (_ & ? & ? & ?). auto.
  - intros p evs qc'. subst qc'.
    destruct (noreply_wait_frame qc p evs) as (_ & ? & ? & ?). auto.
  - intros r res qc'. subst qc'.
    destruct (ref_fill_response_frame r res qc) as (_ & ? & ? & ? & ? & _). auto.
  - intros r qc'. subst qc'. unfold ref_dtor.
    destruct (heap qc !! ref_t.entry r) as [e|]; [|auto].
    destruct (decide (state e = state_t.START)); [auto|].
    destruct (decide (state e = state_t.DONE)); [|auto].
    cbn [queries with_heap].
    destruct (queries qc !! ref_t.token r) as [ptr|].
    + cbn. split; [reflexivity|]. split.
      * intros tok Hne. apply lookup_delete_ne. congruence.
      * intros ptr' Hne. apply lookup_insert_ne. congruence.
    + cbn. split; [reflexivity|]. split; [auto|].
      intros ptr' Hne. apply lookup_insert_ne. congruence.
Qed.

(** X15.  A cache registers itself when it is made and deregisters when it
    is destroyed.  Made under an identity that is not registered, the cache
    is empty, with 0 as the next and as the oldest outstanding query id, and
    destroying it gives back the set of caches as it was; making a second
    cache under the same identity fails the guarantee, and so does destroying
    a cache that is not registered. *)
Theorem registry_round_trip `{Collaborators} (caches : gset N) (this : N) :
  this ∉ caches ->
  exists qc,
    construct caches this = ({[this]} ∪ caches, Normal qc) /\
    self qc = this /\ queries qc = ∅ /\ heap qc = ∅ /\ spawned qc = [] /\
    tracker_of qc = (0%N, 0%N, []) /\
    destruct_cache ({[this]} ∪ caches) qc = (caches, Normal tt) /\
    snd (construct ({[this]} ∪ caches) this) = Abort /\
    snd (destruct_cache caches qc) = Abort.
Proof.
  intros Hout. exists (new_query_cache this).
  assert (Hin : this ∈ ({[this]} ∪ caches : gset N)).
  { apply elem_of_union_l, elem_of_singleton. reflexivity. }
  assert (Hback : ({[this]} ∪ caches) ∖ {[this]} = caches).
  { apply set_eq. intros v.
    rewrite elem_of_difference, elem_of_union, !elem_of_singleton. split.
    - intros [[Hv|Hv] Hne]; [contradiction | exact Hv].
    - intros Hv. split; [right; exact Hv | intros ->; contradiction]. }
  unfold construct, destruct_cache. cbn [self new_query_cache].
  rewrite !(decide_False (P := this ∈ caches)) by exact Hout.
  rewrite !(decide_True (P := this ∈ {[this]} ∪ caches)) by exact Hin.
  rewrite Hback. repeat split.
Qed.

(** X16.  The life of an atom query.  On a token that is not in the map, for
    a term that compiles and evaluates to a value convertible to a datum,
    [create], the [fill_response] of its handle and the destructor of the
    handle all succeed; the response is SUCCESS_ATOM with that datum; and the
    token map is the one before the START again, with the entry DELETING and
    its disposal scheduled.  The token can then be used afresh. *)
Theorem atom_query_lifecycle `{Collaborators} (qc : query_cache_t)
    (p : query_params_t.t) (uuid now : N)
    (reg : backtrace_registry_t) (ts : term_storage_t) (go : global_optargs_t)
    (root : term_t) (val : val_t) (d : datum_t) (res : response_t) :
  self qc = query_params_t.query_cache p ->
  queries qc !! query_params_t.token p = None ->
  compile_query p = (reg, inr (ts, go, root)) ->
  result (eval root) = inr val ->
  is_convertible_DATUM val = true ->
  result (as_datum val) = inr d ->
  exists qc1 r qc2 res' qc3 e3,
    create qc p uuid now false = (qc1, Normal r) /\
    ref_fill_response r res qc1 = (qc2, res', Normal tt) /\
    type res' = Some SUCCESS_ATOM /\ data res' = [d] /\
    ref_dtor r qc2 = (qc3, Normal tt) /\
    queries qc3 = queries qc /\
    spawned qc3 = spawned qc ++ [ref_t.entry r] /\
    heap qc3 !! ref_t.entry r = Some e3 /\ state e3 = state_t.DELETING /\
    heap qc !! ref_t.entry r = None.
Proof.
  intros Hself Hq Hc Hval Hconv Hd.
  rewrite (create_fresh qc p uuid now false Hself Hq). cbv zeta. rewrite Hc.
  set (ptr := fresh (dom (heap qc))).
  set (e0 := new_entry p reg ts go root uuid now).
  set (qc1 := with_queries _ _).
  assert (Hfresh : heap qc !! ptr = None).
  { apply not_elem_of_dom. apply is_fresh. }
  assert (Hh1 : heap qc1 !! ptr = Some e0) by apply lookup_insert_eq.
  assert (Hrun := run_datum e0 res root val d eq_refl Hval Hconv Hd).
  set (tok := query_params_t.token p) in *.
  set (traced := query_params_t.profile p).
  assert (Hfill : exists e1,
    fill_response tok traced (e0, res) =
    ((e1, attach_profile traced (set_data [d] (set_type SUCCESS_ATOM res))),
     Normal tt) /\ state e1 = state_t.DONE).
  { rewrite (fill_response_START tok traced e0 res eq_refl).
    unfold try_catch. rewrite (fill_body_START traced e0 res eq_refl), Hrun.
    assert (Hdone : state (apply_actions (concurrent (as_datum val))
              (apply_actions (concurrent (eval root))
                 (with_state state_t.DONE e0))) = state_t.DONE).
    { rewrite !apply_actions_settled; auto.
      rewrite apply_actions_settled; auto. }
    rewrite decide_False by (rewrite Hdone; discriminate).
    eexists. split; [reflexivity | exact Hdone]. }
  destruct Hfill as (e1 & Hfill & Hdone).
  exists qc1, (ref_t.Make ptr tok traced).
  eexists. eexists. eexists. exists (with_state state_t.DELETING e1).
  split; [reflexivity|].
  split. { unfold ref_fill_response. cbn [ref_t.entry ref_t.token ref_t.trace].
           rewrite Hh1, Hfill. reflexivity. }
  destruct (attach_profile_type_data traced
              (set_data [d] (set_type SUCCESS_ATOM res))) as [-> ->].
  split; [reflexivity|]. split; [reflexivity|].
  split. { unfold ref_dtor. cbn [ref_t.entry ref_t.token heap with_heap].
           rewrite lookup_insert_eq.
           rewrite decide_False by congruence. rewrite decide_True by exact Hdone.
           cbn [queries qc1 with_queries with_heap]. rewrite lookup_insert_eq.
           reflexivity. }
  cbn [queries spawned heap qc1 with_queries with_spawned with_heap ref_t.entry].
  split; [apply delete_insert_id; exact Hq|].
  split; [destruct (maybe_release_query_id_frame p qc)
            as (_ & _ & _ & -> & _); reflexivity|].
  split; [apply lookup_insert_eq|]. split; [reflexivity | exact Hfresh].
Qed.

(** ** What an entry keeps for life *)

Section StaticPartLemmas.
Context `{Collaborators}.

Lemma terminate_internal_static (e : entry_t) :
  static_part (terminate_internal e) = static_part e.
Proof. unfold terminate_internal. destruct (decide _); reflexivity. Qed.

Lemma apply_actions_static (acts : list agent_action) (e : entry_t) :
  static_part (apply_actions acts e) = static_part e.
Proof.
  revert e. induction acts as [|a acts IH]; intros e; [reflexivity|].
  cbn [apply_actions fold_left]. fold (apply_actions acts (apply_action e a)).
  rewrite IH. destruct a; [apply terminate_internal_static | reflexivity].
Qed.

Lemma run_static (e : entry_t) (res : response_t) :
  static_part (run (e, res)).1.1 = static_part e.
Proof.
  unfold run. unfold_M. cbn [root_term with_state].
  destruct (root_term e) as [root|]; [|reflexivity].
  change (static_part e) with (static_part (with_state state_t.DONE e)).
  generalize (with_state state_t.DONE e). intros e0.
  destruct (eval root) as [a1 [x|val]]; cbn [concurrent result fst];
    [apply apply_actions_static|].
  destruct (is_convertible_DATUM val).
  { destruct (as_datum val) as [a2 [x|d]]; cbn [concurrent result fst];
      rewrite !apply_actions_static; reflexivity. }
  destruct (maybe_as_promiscuous_grouped_data val) as [a2 [x|[g|]]];
    cbn [concurrent result fst];
    [rewrite !apply_actions_static; reflexivity| |].
  { destruct (to_datum_for_client_serialization g) as [a3 [x|d]];
      cbn [concurrent result fst]; rewrite !apply_actions_static; reflexivity. }
  destruct (is_convertible_SEQUENCE val);
    [|cbn [fst]; rewrite !apply_actions_static; reflexivity].
  destruct (as_seq val) as [a3 [x|seq]]; cbn [concurrent result fst];
    [rewrite !apply_actions_static; reflexivity|].
  destruct (as_array seq) as [a4 [x|[a|]]]; cbn [concurrent result fst];
    try (rewrite !apply_actions_static; reflexivity).
  change (static_part (with_state state_t.STREAM
            (with_has_sent_batch false (with_stream (Some seq)
               (apply_actions a4 (apply_actions a3 (apply_actions a2
                  (apply_actions a1 e0))))))))
    with (static_part (apply_actions a4 (apply_actions a3 (apply_actions a2
                  (apply_actions a1 e0))))).
  rewrite !apply_actions_static. reflexivity.
Qed.

Lemma serve_static (e : entry_t) (res : response_t) :
  static_part (serve (e, res)).1.1 = static_part e.
Proof.
  destruct (stream e) as [s|] eqn:Hs.
  2:{ unfold serve. unfold_M. rewrite Hs. reflexivity. }
  destruct (result (next_batch s (batch_type_of e))) as [x|[ds s']] eqn:Hb.
  - rewrite (serve_throws e res s x Hs Hb). apply apply_actions_static.
  - rewrite (serve_batch e res s s' ds Hs Hb).
    destruct (is_exhausted s' || noreply e); [destruct (decide _)|];
      cbn [fst];
      change (static_part ?x) with (static_part x);
      first [ apply apply_actions_static
            | exact (apply_actions_static
                       (concurrent (next_batch s (batch_type_of e))) e) ].
Qed.

Lemma fill_body_static (traced : bool) (e : entry_t) (res : response_t) :
  static_part (fill_body traced (e, res)).1.1 = static_part e.
Proof.
  assert (Hsp : forall e0 r0,
            static_part (serve_and_profile traced (e0, r0)).1.1 = static_part e0).
  { intros e0 r0. pose proof (serve_static e0 r0) as Hk.
    unfold serve_and_profile, bind.
    destruct (serve (e0, r0)) as [[e1 r1] [[]|x|]]; [destruct traced|..];
      exact Hk. }
  destruct (decide (state e = state_t.START)) as [Hst|Hst].
  - rewrite (fill_body_START traced e res Hst).
    pose proof (run_static e res) as Hr.
    destruct (run (e, res)) as [[e1 res1] [[]|x|]]; cbn [fst] in *;
      [|exact Hr..].
    destruct (decide _); [|exact Hr].
    rewrite Hsp. exact Hr.
  - rewrite (fill_body_not_START traced e res Hst).
    destruct (decide _); [apply Hsp | reflexivity].
Qed.

Lemma fill_handler_static (x : eval_exc) (e : entry_t) (res : response_t) :
  static_part (fill_handler x (e, res)).1.1 = static_part e.
Proof.
  pose proof (terminate_internal_static e) as Ht.
  unfold fill_handler. unfold_M. destruct x as [|w b|w|w];
    [destruct (persistent_interruptor e); [destruct (decide _)|]|..];
    first [reflexivity | exact Ht].
Qed.

Lemma fill_response_static (tok : Z) (traced : bool) (e : entry_t)
    (res : response_t) :
  static_part (fill_response tok traced (e, res)).1.1 = static_part e.
Proof.
  unfold fill_response, bind, get_entry. cbn [fst].
  destruct (decide _); [reflexivity|]. unfold try_catch.
  pose proof (fill_body_static traced e res) as Hb.
  destruct (fill_body traced (e, res)) as [[e1 res1] [[]|x|]]; cbn [fst] in *;
    [exact Hb | | exact Hb].
  rewrite fill_handler_static. exact Hb.
Qed.

End StaticPartLemmas.

(** X17.  Neither a [fill_response], however it ends, nor what other agents
    do changes what an entry was given when it was made: its job id, its
    noreply and profile flags, its backtrace registry, the storage and the
    optargs of its query and its start time. *)
Theorem entry_keeps_static_part `{Collaborators} (tok : Z) (traced : bool)
    (e : entry_t) (res : response_t) (acts : list agent_action) :
  static_part (fill_response tok traced (e, res)).1.1 = static_part e /\
  static_part (apply_actions acts e) = static_part e /\
  static_part (terminate_internal e) = static_part e.
Proof.
  split; [apply fill_response_static|].
  split; [apply apply_actions_static | apply terminate_internal_static].
Qed.

(** X18.  An evaluation failure becomes a RUNTIME_ERROR after the entry has
    been terminated.  When the evaluation inside a [fill_response] raises an
    evaluator exception, the error carries its message and the backtrace that
    the registry of the entry gives for it; when it raises a datum exception
    or any other exception but [interrupted_exc_t], the error carries its
    message and the empty backtrace.  The response stays as the evaluation
    left it. *)
Theorem evaluation_errors `{Collaborators} (tok : Z) (traced : bool)
    (e e1 : entry_t) (res res1 : response_t) (x : eval_exc) :
  state e = state_t.START \/ state e = state_t.STREAM ->
  fill_body traced (e, res) = ((e1, res1), Throw x) ->
  (forall w bt, x = exc_t w bt ->
     fill_response tok traced (e, res) =
     ((terminate_internal e1, res1),
      Throw (bt_exc_t RUNTIME_ERROR w (datum_backtrace (bt_reg e) (exc_t w bt))))) /\
  (forall w, x = datum_exc_t w \/ x = std_exception w ->
     fill_response tok traced (e, res) =
     ((terminate_internal e1, res1),
      Throw (bt_exc_t RUNTIME_ERROR w EMPTY_BACKTRACE))).
Proof.
  intros Hst Hbody.
  assert (Hf : fill_response tok traced (e, res) = fill_handler x (e1, res1)).
  { unfold fill_response, bind at 1, get_entry. cbn [fst].
    rewrite decide_False by (intros [H1 H2]; destruct Hst; contradiction).
    unfold try_catch. rewrite Hbody. reflexivity. }
  assert (Hreg : bt_reg (terminate_internal e1) = bt_reg e).
  { pose proof (fill_body_static traced e res) as Hs. rewrite Hbody in Hs.
    pose proof (terminate_internal_static e1) as Ht.
    unfold static_part in *. cbn [fst] in Hs. congruence. }
  rewrite Hf. split.
  - intros w bt ->. unfold fill_handler. unfold_M. rewrite Hreg. reflexivity.
  - intros w [-> | ->]; reflexivity.
Qed.

(** * Scenarios

    The operations run on the small evaluator. *)
Section Scenarios.
#[local] Existing Instance Toy.collaborators.
Import Toy.

(** The atom query and the first response of a paged stream. *)
Lemma fill_response_from_START_witness :
  (exists e' res',
     fill_response 1 false (entry_of (q_num 2) false, empty_response)
     = ((e', res'), Normal tt) /\
     state e' = state_t.DONE /\
     type res' = Some SUCCESS_ATOM /\ data res' = [d_num 2]) /\
  (exists e1,
     stream e1 = Some (table [1; 2; 3]) /\ has_sent_batch e1 = false /\
     state e1 = state_t.STREAM /\
     fill_response 1 false
       (entry_of (q_table (table [1; 2; 3])) false, empty_response)
     = try_catch (serve_and_profile false) fill_handler (e1, empty_response)).
Proof.
  split.
  - destruct (fill_response_from_START 1 false
                (entry_of (q_num 2) false) empty_response (q_num 2)
                eq_refl eq_refl) as [_ Hv].
    destruct (Hv (v_datum 2) eq_refl) as (Hd & _).
    exact (Hd eq_refl (d_num 2) eq_refl).
  - destruct (fill_response_from_START 1 false
                (entry_of (q_table (table [1; 2; 3])) false)
                empty_response (q_table (table [1; 2; 3]))
                eq_refl eq_refl) as [_ Hv].
    destruct (Hv (v_selection (table [1; 2; 3])) eq_refl)
      as (_ & _ & Hs & _).
    destruct (Hs eq_refl eq_refl eq_refl (table [1; 2; 3]) eq_refl) as [_ Hn].
    exact (Hn eq_refl).
Defined.

(** The paged stream of the end-to-end scenarios: the first response of a
    table of three rows is a partial batch, and the entry is streaming. *)
Example paged_stream_first_response :
  exists e' res',
    fill_response 1 false
      (entry_of (q_table (table [1; 2; 3])) false, empty_response)
    = ((e', res'), Normal tt) /\
    state e' = state_t.STREAM /\ root_term e' = None /\
    has_sent_batch e' = true /\
    type res' = Some SUCCESS_PARTIAL /\ data res' = [d_num 1].
Proof. eexists _, _. split; [vm_compute; reflexivity|]. repeat split. Qed.



(** The small sequence of the end-to-end scenarios: an array is answered
    whole, as an atom. *)
Example small_sequence :
  exists e' res',
    fill_response 2 false (entry_of (q_array [0; 1; 2]) false, empty_response)
    = ((e', res'), Normal tt) /\
    state e' = state_t.DONE /\ root_term e' = None /\
    type res' = Some SUCCESS_ATOM /\ data res' = [d_array [0; 1; 2]].
Proof. eexists _, _. split; [vm_compute; reflexivity|]. repeat split. Qed.

(** The last batch of a table and the only batch of a noreply query end the
    stream; an empty batch of a feed does not. *)
Example serve_last_batch :
  exists e' res',
    serve (streaming (table [3]) true false, empty_response) = ((e', res'), Normal tt) /\
    state e' = state_t.DONE /\ type res' = Some SUCCESS_SEQUENCE /\
    data res' = [d_num 3].
Proof. eexists _, _. split; [vm_compute; reflexivity|]. repeat split. Qed.

Example serve_noreply :
  exists e' res',
    serve (streaming (table [1; 2; 3]) false true, empty_response)
    = ((e', res'), Normal tt) /\
    state e' = state_t.DONE /\ type res' = Some SUCCESS_SEQUENCE /\
    data res' = [d_num 1].
Proof. eexists _, _. split; [vm_compute; reflexivity|]. repeat split. Qed.

Example serve_idle_feed :
  exists e' res',
    serve (streaming (changes []) true false, empty_response)
    = ((e', res'), Normal tt) /\
    state e' = state_t.STREAM /\ type res' = Some SUCCESS_PARTIAL /\
    data res' = [] /\ notes res' = [SEQUENCE_FEED].
Proof. eexists _, _. split; [vm_compute; reflexivity|]. repeat split. Qed.

(** A CONTINUE for a token the cache does not know. *)
Lemma client_errors_witness :
  snd (get one_id_cache atom_params false) =
  Throw (bt_exc_t CLIENT_ERROR "Token 4 not in stream cache." EMPTY_BACKTRACE) /\
  snd (create atom_cache atom_params 1 2 false) =
  Throw (bt_exc_t CLIENT_ERROR "ERROR: duplicate token 4" EMPTY_BACKTRACE).
Proof.
  split.
  - destruct (client_errors one_id_cache atom_params eq_refl) as (_ & Hget & _).
    destruct (Hget false) as [Habsent _]. exact (Habsent eq_refl).
  - destruct (client_errors atom_cache atom_params eq_refl) as (Hcreate & _).
    destruct (Hcreate 1%N 2%N false) as [Hdup _].
    exact (Hdup (ex_intro _ 1%positive eq_refl)).
Defined.

(** [terminate_internal] while a batch is being produced: the interrupted
    [fill_response] returns a cleared SUCCESS_SEQUENCE; it does not raise the
    runtime error of the jobs table. *)
Lemma terminate_internal_kill_counterexample :
  let e := streaming (doomed_table [1; 2] [act_terminate_internal]) true false in
  next_batch (doomed_table [1; 2] [act_terminate_internal]) (batch_type_of e)
  = Suspension [act_terminate_internal] (inl interrupted_exc_t) /\
  fill_response 3 false (e, empty_response)
  = ((terminate_internal e, set_type SUCCESS_SEQUENCE empty_response), Normal tt) /\
  snd (fill_response 3 false (e, empty_response))
  <> Throw (bt_exc_t RUNTIME_ERROR "Query terminated by the `rethinkdb.jobs` table."
                     EMPTY_BACKTRACE).
Proof. repeat split. discriminate. Qed.

(** The admin kill of the end-to-end scenarios: a bare pulse while a batch is
    being produced. *)
Lemma jobs_table_kill_witness :
  let e := streaming (doomed_table [1; 2] [act_pulse_persistent]) true false in
  fill_response 3 false (e, empty_response) =
  ((with_persistent_interruptor true e, empty_response),
   Throw (bt_exc_t RUNTIME_ERROR "Query terminated by the `rethinkdb.jobs` table."
                   EMPTY_BACKTRACE)).
Proof.
  intros e.
  destruct (jobs_table_kill 3 false e empty_response
              (doomed_table [1; 2] [act_pulse_persistent]) [act_pulse_persistent]
              eq_refl eq_refl eq_refl) as [Hkill _].
  apply Hkill; [discriminate | repeat constructor].
Defined.

(** A client STOP while a batch is being produced, and the external
    interruptor firing on its own. *)
Lemma interrupted_fill_response_witness :
  (exists res',
     fill_response 3 false
       (streaming (doomed_table [1; 2] [act_terminate_internal]) true false,
        empty_response)
     = ((terminate_internal
           (streaming (doomed_table [1; 2] [act_terminate_internal]) true false),
         res'), Normal tt) /\
     type res' = Some SUCCESS_SEQUENCE /\
     data res' = [] /\ notes res' = [] /\ profile_datum res' = None) /\
  fill_response 3 false (streaming (doomed_table [1; 2] []) true false, empty_response)
  = ((terminate_internal (streaming (doomed_table [1; 2] []) true false),
      empty_response),
     Throw (uncaught interrupted_exc_t)).
Proof.
  split.
  - destruct (interrupted_fill_response 3 false
                (streaming (doomed_table [1; 2] [act_terminate_internal]) true false)
                (terminate_internal
                   (streaming (doomed_table [1; 2] [act_terminate_internal]) true false))
                empty_response empty_response (or_intror eq_refl) eq_refl)
      as [Hstop _].
    exact (Hstop eq_refl eq_refl).
  - destruct (interrupted_fill_response 3 false
                (streaming (doomed_table [1; 2] []) true false)
                (streaming (doomed_table [1; 2] []) true false)
                empty_response empty_response (or_intror eq_refl) eq_refl)
      as [_ Hext].
    exact (Hext eq_refl).
Defined.

(** The atom query of the end-to-end scenarios: once answered, dropping the
    handle unlinks the entry. *)
Lemma ref_destruction_witness :
  exists qc',
    ref_dtor atom_ref answered_cache = (qc', Normal tt) /\
    heap qc' !! 1%positive = Some (with_state state_t.DELETING answered_entry) /\
    queries qc' = delete 4 (queries answered_cache) /\
    spawned qc' = [1%positive] /\
    heap (async_destroy_entry 1%positive qc') !! 1%positive = None /\
    queries (async_destroy_entry 1%positive qc') = queries qc' /\
    forall p interrupted,
      self qc' = query_params_t.query_cache p ->
      query_params_t.token p = 4 ->
      snd (get qc' p interrupted) =
      Throw (bt_exc_t CLIENT_ERROR "Token 4 not in stream cache." EMPTY_BACKTRACE).
Proof.
  destruct (ref_destruction atom_ref answered_cache answered_entry eq_refl)
    as (_ & _ & Hdone & _).
  exact (Hdone eq_refl eq_refl).
Defined.

(** [terminate_query] and [noreply_wait] return with the id of their params
    still outstanding, where a release takes it out. *)
Lemma release_by_every_operation_counterexample :
  let p := params 9 0 j_bad_datum in
  self one_id_cache = query_params_t.query_cache p /\
  terminate_query one_id_cache p = (one_id_cache, Normal tt) /\
  noreply_wait one_id_cache p [] = (one_id_cache, Some (Normal tt)) /\
  outstanding_query_ids one_id_cache = [0%N] /\
  outstanding_query_ids (maybe_release_query_id p one_id_cache) = [] /\
  tracker_of (terminate_query one_id_cache p).1
  <> tracker_of (maybe_release_query_id p one_id_cache) /\
  tracker_of (noreply_wait one_id_cache p []).1
  <> tracker_of (maybe_release_query_id p one_id_cache).
Proof. repeat split; discriminate. Qed.

(** On a cache with the id 0 outstanding, [get] and [create] with params
    that are not noreply leave the tracker without it and the other two leave
    it where it is. *)
Lemma release_before_lookup_witness :
  tracker_of (get one_id_cache atom_params false).1 = (1%N, 1%N, []) /\
  tracker_of (create one_id_cache atom_params 1 2 false).1 = (1%N, 1%N, []) /\
  tracker_of (terminate_query one_id_cache atom_params).1 = (1%N, 0%N, [0%N]) /\
  tracker_of (noreply_wait one_id_cache atom_params []).1 = (1%N, 0%N, [0%N]).
Proof.
  destruct (release_before_lookup one_id_cache atom_params eq_refl)
    as (Hcreate & Hget & Hterm & Hwait).
  destruct (Hcreate 1%N 2%N false) as (_ & Hc & _).
  destruct (Hget false) as (_ & Hg & _).
  split; [exact Hg|]. split; [exact Hc|]. split; [exact Hterm | exact Hwait].
Defined.

(** A noreply START with the id 0 keeps its id: the tracker is as [create]
    found it, a NOREPLY_WAIT with the id 1 stays blocked, and it returns once
    the id 0 has been released.  The same START without noreply has released
    its id when [create] returns. *)
Example noreply_start_keeps_its_id :
  let qc := (create two_ids_cache noreply_start_params 1 2 false).1 in
  tracker_of two_ids_cache = (2%N, 0%N, [0%N; 1%N]) /\
  tracker_of qc = (2%N, 0%N, [0%N; 1%N]) /\
  (noreply_wait qc noreply_wait_params []).2 = None /\
  (noreply_wait qc noreply_wait_params [ev_release 0%N]).2 = Some (Normal tt) /\
  tracker_of (create two_ids_cache (params 10 0 (j_term (q_num 1))) 1 2 false).1
  = (2%N, 1%N, [1%N]).
Proof. repeat split. Qed.

(** An evaluation that fails leaves the entry DONE with its root term, and so
    does a first evaluation that a client STOP interrupts, where
    [fill_response] returns normally. *)
Lemma root_term_after_failure_counterexample :
  let e := entry_of (q_fail [] (exc_t "boom" 4)) false in
  let after := fill_response 1 false (e, empty_response) in
  let e2 := entry_of (q_fail [act_terminate_internal] interrupted_exc_t) false in
  let after2 := fill_response 1 false (e2, empty_response) in
  reachable e /\ state e = state_t.START /\
  reachable after.1.1 /\
  after.2 = Throw (bt_exc_t RUNTIME_ERROR "boom" (d_frames [4%N; 1%N])) /\
  state after.1.1 = state_t.DONE /\
  root_term after.1.1 = Some (q_fail [] (exc_t "boom" 4)) /\
  root_term after.1.1 <> None /\
  state e2 = state_t.START /\
  after2.2 = Normal tt /\
  state after2.1.1 = state_t.DONE /\
  root_term after2.1.1 <> None.
Proof.
  intros e after e2 after2.
  assert (He : reachable e).
  { exact (reach_new (params 1 0 j_bad_datum) [1%N] (j_term (q_fail [] (exc_t "boom" 4)))
             (j_term (q_fail [] (exc_t "boom" 4))) (q_fail [] (exc_t "boom" 4)) 7 0). }
  split; [exact He|]. split; [reflexivity|].
  split; [exact (reach_fill_response e 1 false empty_response He)|].
  split; [reflexivity|]. split; [reflexivity|]. split; [reflexivity|].
  split; [discriminate|]. split; [reflexivity|]. split; [reflexivity|].
  split; [reflexivity | discriminate].
Qed.

(** The first response of a paged stream leaves a streaming entry without a
    root term. *)
Lemma root_term_cleared_witness :
  let e := entry_of (q_table (table [1; 2; 3])) false in
  let e' := (fill_response 1 false (e, empty_response)).1.1 in
  root_term e' = None /\ state e' = state_t.STREAM.
Proof.
  intros e e'.
  assert (He : reachable e).
  { exact (reach_new (params 1 0 j_bad_datum) [1%N] (j_term (q_table (table [1; 2; 3])))
             (j_term (q_table (table [1; 2; 3]))) (q_table (table [1; 2; 3])) 7 0). }
  destruct (root_term_cleared e He) as [_ Hrun].
  split; [|reflexivity].
  apply (Hrun 1 false empty_response eq_refl). eexists. reflexivity.
Defined.

(** The barrier of the end-to-end scenarios: with the ids 0 and 1
    outstanding, the wait of id 1 ends when id 0 is released. *)
Lemma noreply_wait_barrier_witness :
  let p := params 9 1 j_bad_datum in
  noreply_wait two_ids_cache p [ev_release 0%N]
  = (release_query_id 0%N two_ids_cache, Some (Normal tt)) /\
  oldest_outstanding_query_id (release_query_id 0%N two_ids_cache) = 1%N /\
  (forall v, (v < 1)%N ->
     (v ∉ outstanding_query_ids (release_query_id 0%N two_ids_cache)) /\
     (v < next_query_id (release_query_id 0%N two_ids_cache))%N) /\
  noreply_wait two_ids_cache p [] = (two_ids_cache, None).
Proof.
  intros p.
  assert (Hinv : tracker_inv two_ids_cache).
  { split; [reflexivity | repeat constructor]. }
  destruct (noreply_wait_barrier two_ids_cache (release_query_id 0%N two_ids_cache)
              p [ev_release 0%N] eq_refl Hinv eq_refl) as (Hret & _ & Hblocked).
  destruct (Hret eq_refl) as [Hold Hall].
  split; [reflexivity|]. split; [exact Hold|]. split; [exact Hall|].
  apply Hblocked. discriminate.
Defined.

(** A START whose term does not compile leaves no trace in the map. *)
Lemma create_failure_keeps_map_witness :
  let p := params 4 0 (j_unknown_term 3) in
  create one_id_cache p 1 2 false
  = (maybe_release_query_id p one_id_cache,
     Throw (bt_exc_t COMPILE_ERROR "Unknown term" (d_frames [3%N; 1%N]))) /\
  queries (maybe_release_query_id p one_id_cache) = queries one_id_cache /\
  queries (maybe_release_query_id p one_id_cache) !! 4 = None /\
  snd (create (maybe_release_query_id p one_id_cache) atom_params 1 2 false)
  <> Throw (bt_exc_t CLIENT_ERROR "ERROR: duplicate token 4" EMPTY_BACKTRACE).
Proof.
  intros p.
  destruct (create_failure_keeps_map (H := collaborators) one_id_cache
              (maybe_release_query_id p one_id_cache) p 1 2 false
              (Throw (bt_exc_t (H := collaborators) COMPILE_ERROR "Unknown term"
                               (d_frames [3%N; 1%N])))
              eq_refl eq_refl) as (Hkeep & Hcompile & _).
  destruct Hkeep as [Hq _]; [discriminate|].
  destruct (Hcompile _ _ eq_refl) as [Habsent Hlater].
  split; [reflexivity|]. split; [exact Hq|]. split; [exact Habsent|].
  apply Hlater; reflexivity.
Defined.


(** ** Further scenarios *)

(** A STOP for the query that has just been started, twice. *)
Lemma terminate_query_idempotent_witness :
  exists qc',
    terminate_query atom_cache atom_params = (qc', Normal tt) /\
    terminate_query qc' atom_params = (qc', Normal tt) /\
    queries qc' = queries atom_cache /\
    heap qc' !! 1%positive = Some (terminate_internal atom_entry).
Proof.
  destruct (terminate_query_idempotent atom_cache atom_params eq_refl)
    as (qc' & H1 & H2 & _ & H3 & _ & _ & _ & H4 & _).
  exists qc'. split; [exact H1|]. split; [exact H2|]. split; [exact H3|].
  exact (H4 1%positive eq_refl).
Defined.

(** A STOP for the query that has just been started, then a CONTINUE. *)
Lemma stop_then_continue_witness :
  exists qc2 qc3,
    ref_fill_response atom_ref empty_response qc2 =
    (qc2, empty_response,
     Throw (bt_exc_t CLIENT_ERROR "ERROR: duplicate token 4" EMPTY_BACKTRACE)) /\
    ref_dtor atom_ref qc2 = (qc3, Normal tt) /\
    queries qc3 !! 4 = None.
Proof.
  destruct (stop_then_continue atom_cache atom_params continue_params
              1%positive atom_entry empty_response
              eq_refl eq_refl eq_refl eq_refl eq_refl)
    as (qc1 & qc2 & qc3 & _ & _ & Hfill & Hdtor & Hgone & _).
  - discriminate.
  - exists qc2, qc3. split; [exact Hfill|]. split; [exact Hdtor | exact Hgone].
Defined.

(** A START, then a CONTINUE and a second START for the same token. *)
Lemma create_then_get_witness :
  get atom_cache continue_params false =
  (maybe_release_query_id continue_params atom_cache, Normal atom_ref) /\
  snd (create atom_cache continue_params 5 6 false) =
  Throw (bt_exc_t CLIENT_ERROR "ERROR: duplicate token 4" EMPTY_BACKTRACE).
Proof.
  destruct (create_then_get one_id_cache atom_cache atom_params continue_params
              1 2 atom_ref eq_refl eq_refl eq_refl eq_refl)
    as (_ & _ & _ & _ & Hget & Hdup).
  split; [exact Hget | exact (Hdup 5%N 6%N false)].
Defined.

(** The entry of a table that has given its first batch has a stream. *)
Lemma reachable_entry_shape_witness :
  is_Some (stream (fill_response 1 false
                     (entry_of (q_table (table [1; 2; 3])) false,
                      empty_response)).1.1).
Proof.
  assert (He : reachable (entry_of (q_table (table [1; 2; 3])) false)).
  { exact (reach_new (params 1 0 j_bad_datum) [1%N]
             (j_term (q_table (table [1; 2; 3])))
             (j_term (q_table (table [1; 2; 3]))) (q_table (table [1; 2; 3])) 7 0). }
  destruct (reachable_entry_shape _
              (reach_fill_response _ 1 false empty_response He)) as [_ Hs].
  exact (Hs eq_refl).
Defined.

(** A batch that nobody disturbs brings nothing down. *)
Lemma continue_aborts_iff_stopped_witness :
  snd (fill_response 3 false
         (streaming (table [1; 2; 3]) true false, empty_response)) = Abort <->
  In act_terminate_internal [] /\
  (is_exhausted (table [3]) = true \/ false = true).
Proof.
  exact (continue_aborts_iff_stopped 3 false
           (streaming (table [1; 2; 3]) true false) empty_response
           (table [1; 2; 3]) (table [3]) [] [d_num 1; d_num 2]
           eq_refl eq_refl eq_refl).
Defined.

(** The batches of the small evaluator arrive undisturbed. *)
Lemma fill_response_keeps_guarantees_witness :
  snd (fill_response 1 false
         (entry_of (q_table (table [1; 2; 3])) false, empty_response)) <> Abort.
Proof.
  apply fill_response_keeps_guarantees.
  - exact (reach_new (params 1 0 j_bad_datum) [1%N]
             (j_term (q_table (table [1; 2; 3])))
             (j_term (q_table (table [1; 2; 3]))) (q_table (table [1; 2; 3])) 7 0).
  - intros s k acts r Hb Hin. cbn in Hb. unfold batch in Hb.
    destruct (trouble s) as [[a x]|]; [discriminate|].
    injection Hb as <- _. destruct Hin.
Defined.

(** An evaluation that fails. *)
Lemma failed_fill_response_terminates_witness :
  let after := fill_response 1 false
                 (entry_of (q_fail [] (exc_t "boom" 4)) false, empty_response) in
  persistent_interruptor after.1.1 = true /\ state after.1.1 = state_t.DONE.
Proof.
  intros after.
  destruct (failed_fill_response_terminates (H := collaborators) 1 false
              (entry_of (q_fail [] (exc_t "boom" 4)) false) after.1.1
              empty_response after.1.2
              (bt_exc_t (H := collaborators) RUNTIME_ERROR "boom"
                 (d_frames [4%N; 1%N]))
              (or_introl eq_refl) eq_refl) as (Hp & _ & _).
  split; [exact Hp | reflexivity].
Defined.

(** The atom query and its response. *)
Lemma successful_fill_response_witness :
  let after := fill_response 1 false (entry_of (q_num 2) false, empty_response) in
  (type after.1.2 = Some SUCCESS_ATOM \/ type after.1.2 = Some SUCCESS_SEQUENCE \/
   type after.1.2 = Some SUCCESS_PARTIAL) /\
  exists d, data after.1.2 = [d].
Proof.
  intros after.
  destruct (successful_fill_response 1 false (entry_of (q_num 2) false) after.1.1
              empty_response after.1.2 (or_introl eq_refl) eq_refl)
    as (Hty & Hatom & _).
  split; [exact Hty|]. apply (Hatom eq_refl).
Defined.

Lemma profile_of_response_witness :
  let after := fill_response 1 true (entry_of (q_num 2) false, empty_response) in
  profile_datum after.1.2 = Some (d_num 0) \/
  (after.1.2 = set_type SUCCESS_SEQUENCE empty_response /\
   persistent_interruptor after.1.1 = true /\ state after.1.1 = state_t.DONE).
Proof.
  intros after.
  exact (profile_of_response 1 true (entry_of (q_num 2) false) after.1.1
           empty_response after.1.2 (or_introl eq_refl) eq_refl).
Defined.

(** The cache of the started query is well formed, and stays so. *)
Lemma cache_wf_invariant_witness :
  cache_wf (terminate_query atom_cache atom_params).1 /\
  cache_wf (ref_fill_response atom_ref empty_response atom_cache).1.1.
Proof.
  assert (Hwf : cache_wf atom_cache).
  { apply cache_wf_create.
    exact (cache_wf_frame (new_query_cache 0) one_id_cache eq_refl eq_refl
             (cache_wf_new 0)). }
  destruct (cache_wf_invariant atom_cache Hwf) as (_ & _ & Ht & _ & Hf & _).
  split; [exact (Ht atom_params) | exact (Hf atom_ref empty_response)].
Defined.

Lemma well_formed_cache_keeps_guarantees_witness :
  snd (get atom_cache continue_params false) <> Abort /\
  snd (ref_dtor atom_ref answered_cache) = Normal tt.
Proof.
  assert (Hwf : cache_wf atom_cache).
  { apply cache_wf_create.
    exact (cache_wf_frame (new_query_cache 0) one_id_cache eq_refl eq_refl
             (cache_wf_new 0)). }
  assert (Hwf' : cache_wf answered_cache).
  { pose proof (Hwf) as [W1 W2]. split.
    - intros tok ptr Hl.
      assert (ptr = 1%positive) as ->.
      { destruct (W1 tok ptr Hl) as (e & He & _).
        destruct (decide (ptr = 1%positive)) as [->|Hne]; [reflexivity|].
        exfalso. revert He. change (heap atom_cache) with
          (<[1%positive := atom_entry]> (∅ : gmap positive entry_t)).
        rewrite lookup_insert_ne by congruence. rewrite lookup_empty. discriminate. }
      exists answered_entry. split; [reflexivity | discriminate].
    - exact W2. }
  split.
  - destruct (well_formed_cache_keeps_guarantees atom_cache continue_params
                Hwf eq_refl) as (_ & Hget & _).
    exact (proj1 (Hget false)).
  - destruct (well_formed_cache_keeps_guarantees answered_cache continue_params
                Hwf' eq_refl) as (_ & _ & _ & _ & Hdtor).
    apply (Hdtor atom_ref answered_entry); [|reflexivity | discriminate].
    exists answered_entry. split; [reflexivity|]. intros _. reflexivity.
Defined.

(** The first cache of a thread. *)
Lemma registry_round_trip_witness :
  exists qc,
    construct ∅ 0%N = ({[0%N]} ∪ ∅, Normal qc) /\
    destruct_cache ({[0%N]} ∪ ∅) qc = (∅, Normal tt).
Proof.
  destruct (registry_round_trip ∅ 0%N (not_elem_of_empty 0%N))
    as (qc & Hc & _ & _ & _ & _ & _ & Hd & _).
  exists qc. split; [exact Hc | exact Hd].
Defined.

(** The atom query of the end-to-end scenarios, from START to the drop of
    the handle. *)
Lemma atom_query_lifecycle_witness :
  exists qc1 r qc2 res' qc3,
    create one_id_cache atom_params 1 2 false = (qc1, Normal r) /\
    ref_fill_response r empty_response qc1 = (qc2, res', Normal tt) /\
    type res' = Some SUCCESS_ATOM /\ data res' = [d_num 1] /\
    ref_dtor r qc2 = (qc3, Normal tt) /\
    queries qc3 = queries one_id_cache.
Proof.
  destruct (atom_query_lifecycle one_id_cache atom_params 1 2 [1%N]
              (j_term (q_num 1)) (j_term (q_num 1)) (q_num 1) (v_datum 1)
              (d_num 1) empty_response
              eq_refl eq_refl eq_refl eq_refl eq_refl eq_refl)
    as (qc1 & r & qc2 & res' & qc3 & e3 & H1 & H2 & H3 & H4 & H5 & H6 & _).
  exists qc1, r, qc2, res', qc3. repeat (split; [assumption|]). exact H6.
Defined.

(** A failed evaluation and a table that cannot be read. *)
Lemma evaluation_errors_witness :
  fill_response 1 false
    (entry_of (q_fail [] (exc_t "boom" 4)) false, empty_response)
  = ((terminate_internal
        (with_state state_t.DONE (entry_of (q_fail [] (exc_t "boom" 4)) false)),
      empty_response),
     Throw (bt_exc_t RUNTIME_ERROR "boom" (d_frames [4%N; 1%N]))) /\
  fill_response 1 false
    (entry_of (q_fail [] (datum_exc_t "bad")) false, empty_response)
  = ((terminate_internal
        (with_state state_t.DONE (entry_of (q_fail [] (datum_exc_t "bad")) false)),
      empty_response),
     Throw (bt_exc_t RUNTIME_ERROR "bad" EMPTY_BACKTRACE)).
Proof.
  split.
  - destruct (evaluation_errors 1 false
                (entry_of (q_fail [] (exc_t "boom" 4)) false)
                (with_state state_t.DONE (entry_of (q_fail [] (exc_t "boom" 4)) false))
                empty_response empty_response (exc_t "boom" 4)
                (or_introl eq_refl) eq_refl) as [Hexc _].
    exact (Hexc "boom" 4%N eq_refl).
  - destruct (evaluation_errors 1 false
                (entry_of (q_fail [] (datum_exc_t "bad")) false)
                (with_state state_t.DONE
                   (entry_of (q_fail [] (datum_exc_t "bad")) false))
                empty_response empty_response (datum_exc_t "bad")
                (or_introl eq_refl) eq_refl) as [_ Hother].
    exact (Hother "bad" (or_introl eq_refl)).
Defined.

(** A client stops a query while its term is evaluated for the first time
    and the evaluation ends with a table all the same: [run] leaves the entry
    STREAM with the interruptor pulsed, and the [fill_response] answers with
    the first batch. *)
Example stop_during_first_evaluation :
  let e := disturbed_entry_of [act_terminate_internal] []
             (q_table (table [1; 2; 3])) false in
  let res := @empty_response (disturbed [act_terminate_internal] []) in
  state (run (e, res)).1.1 = state_t.STREAM /\
  persistent_interruptor (run (e, res)).1.1 = true /\
  (fill_response 3 false (e, res)).2 = Normal tt /\
  state (fill_response 3 false (e, res)).1.1 = state_t.STREAM /\
  type (fill_response 3 false (e, res)).1.2 = Some SUCCESS_PARTIAL /\
  data (fill_response 3 false (e, res)).1.2 = [d_num 1].
Proof. repeat split. Qed.

End Scenarios.
